(** * A shallow embedding of [2-better-advection/Fluid.cpp]

    The simulator of the "incremental fluids" tutorial: a staggered
    scalar grid ([FluidQuantity]) and a solver coupling a density field
    and the two velocity components through a divergence computation,
    a relaxation pressure solve, a pressure-gradient correction and a
    semi-Lagrangian advection.

    Modelling choices.
    - [double] is modelled by exact rationals [Q]; [min]/[max] are [Qmin]
      and [Qmax] (they return the same argument as [std::min]/[std::max]),
      [fabs] is [Qabs], and the C cast [(int)d] truncates toward zero.
    - A heap buffer [double *] is a [list Q]; [buf[i]] is [rd].  The
      source never checks its indices; a read past a buffer is undefined
      behaviour, modelled as an unspecified value [junk i] (the whole
      development is parameterised by [junk]).  A write past a buffer is
      dropped.
    - [sqrt] (used only by [length]) is an arbitrary function.
    - Every nested [for (y ...) for (x ...)] loop is a left fold over the
      list of visited cells, in the same row-major order. *)

From Stdlib Require Import ZArith QArith Qminmax Qabs List Lia Lqa.
Import ListNotations.

Open Scope Q_scope.

(** ** Integers, loops and buffers *)

(** The C cast [(int)d]: truncation toward zero. *)
Definition to_int (q : Q) : Z := Z.quot (Qnum q) (Zpos (Qden q)).

(** [for (int k = lo; k < hi; k++)]. *)
Definition zrange (lo hi : Z) : list Z :=
  map (fun k => (lo + Z.of_nat k)%Z) (seq 0 (Z.to_nat (hi - lo))).

(** The cells visited by [for (y in ys) for (x in xs)], as [(x, y)]. *)
Definition grid (xs ys : list Z) : list (Z * Z) :=
  flat_map (fun y => map (fun x => (x, y)) xs) ys.

(** [for (int y = 0; y < h; y++) for (int x = 0; x < w; x++)]. *)
Definition cells (w h : Z) : list (Z * Z) := grid (zrange 0 w) (zrange 0 h).

Fixpoint set_nth (n : nat) (v : Q) (l : list Q) : list Q :=
  match l, n with
  | [], _ => []
  | _ :: t, O => v :: t
  | x :: t, S n' => x :: set_nth n' v t
  end.

Definition in_buf (b : list Q) (i : Z) : bool :=
  (0 <=? i)%Z && (i <? Z.of_nat (List.length b))%Z.

(** The C++ [int] arithmetic of the sizes: 32-bit two's complement; an
    overflowing sum or product wraps around, as the compiled code does. *)
Definition int32 (z : Z) : Z := ((z + 2^31) mod 2^32 - 2^31)%Z.

(** The [k]-th allocation of a constructor, [new double[n]]: a negative
    count throws [std::bad_array_new_length]; otherwise [ok k n] tells
    whether the allocator has the memory, and [std::bad_alloc] is thrown
    when it does not.  A [new T] of one object is a count of 1. *)
Definition alloc (ok : nat -> Z -> bool) (k : nat) (n : Z) : option (list Q) :=
  if (n <? 0)%Z then None
  else if ok k n then Some (repeat 0 (Z.to_nat n)) else None.

Definition Qltb (a b : Q) : bool :=
  match Qcompare a b with Lt => true | _ => false end.

(** [length] and [cubicPulse]. *)
Definition length (sqrt : Q -> Q) (x y : Q) : Q := sqrt (x*x + y*y).

Definition cubicPulse (x : Q) : Q :=
  let x := Qmin (Qabs x) 1 in
  1 - x*x*(3 - 2*x).

(** ** [FluidQuantity] *)

Record FluidQuantity := mkFluidQuantity {
  q_src : list Q;
  q_dst : list Q;
  q_w : Z;
  q_h : Z;
  q_ox : Q;
  q_oy : Q;
  q_hx : Q
}.

Definition with_src (q : FluidQuantity) (s : list Q) : FluidQuantity :=
  mkFluidQuantity s (q_dst q) (q_w q) (q_h q) (q_ox q) (q_oy q) (q_hx q).

Definition with_dst (q : FluidQuantity) (d : list Q) : FluidQuantity :=
  mkFluidQuantity (q_src q) d (q_w q) (q_h q) (q_ox q) (q_oy q) (q_hx q).

(** The constructor: [_src] is zeroed, [_dst] is left uninitialised
    (modelled as zeros; [advect] overwrites it before any [flip]). *)
Definition FluidQuantity_new (ok : nat -> Z -> bool) (k : nat) (w h : Z) (ox oy hx : Q)
    : option FluidQuantity :=
  match alloc ok k (int32 (w * h)) with
  | None => None
  | Some s =>
  match alloc ok (S k) (int32 (w * h)) with
  | None => None
  | Some d => Some (mkFluidQuantity s d w h ox oy hx)
  end end.

(** [new FluidQuantity(w, h, ox, oy, hx)] as the [k]-th allocation: the
    object, then its two arrays. *)
Definition new_FluidQuantity (ok : nat -> Z -> bool) (k : nat) (w h : Z) (ox oy hx : Q)
    : option FluidQuantity :=
  if ok k 1%Z then FluidQuantity_new ok (S k) w h ox oy hx else None.

Definition flip (q : FluidQuantity) : FluidQuantity :=
  mkFluidQuantity (q_dst q) (q_src q) (q_w q) (q_h q) (q_ox q) (q_oy q) (q_hx q).

Definition lerp1 (a b x : Q) : Q := a*(1 - x) + b*x.

Definition cerp1 (a b c d x : Q) : Q :=
  let xsq := x*x in
  let xcu := xsq*x in
  let minV := Qmin a (Qmin b (Qmin c d)) in
  let maxV := Qmax a (Qmax b (Qmax c d)) in
  let t :=
    a*(0 - (1#2)*x + 1*xsq - (1#2)*xcu) +
    b*(1 + 0*x - (5#2)*xsq + (3#2)*xcu) +
    c*(0 + (1#2)*x + 2*xsq - (3#2)*xcu) +
    d*(0 + 0*x - (1#2)*xsq + (1#2)*xcu) in
  Qmin (Qmax t minV) maxV.

Section Memory.

(** The contents of memory outside a buffer (undefined behaviour). *)
Variable junk : Z -> Q.

Definition rd (b : list Q) (i : Z) : Q :=
  if in_buf b i then nth (Z.to_nat i) b 0 else junk i.

Definition wr (b : list Q) (i : Z) (v : Q) : list Q :=
  if in_buf b i then set_nth (Z.to_nat i) v b else b.

(** [at(x, y)] reads [_src[x + y*_w]]. *)
Definition at_ (q : FluidQuantity) (x y : Z) : Q :=
  rd (q_src q) (x + y * q_w q).

(** [lerp(x, y)]: bilinear sampling. *)
Definition lerp (q : FluidQuantity) (x y : Q) : Q :=
  let x := Qmin (Qmax (x - q_ox q) 0) (inject_Z (q_w q) - (1001#1000)) in
  let y := Qmin (Qmax (y - q_oy q) 0) (inject_Z (q_h q) - (1001#1000)) in
  let ix := to_int x in
  let iy := to_int y in
  let x := x - inject_Z ix in
  let y := y - inject_Z iy in
  let x00 := at_ q (ix + 0) (iy + 0) in
  let x10 := at_ q (ix + 1) (iy + 0) in
  let x01 := at_ q (ix + 0) (iy + 1) in
  let x11 := at_ q (ix + 1) (iy + 1) in
  lerp1 (lerp1 x00 x10 x) (lerp1 x01 x11 x) y.

(** [cerp(x, y)]: bicubic sampling. *)
Definition cerp (q : FluidQuantity) (x y : Q) : Q :=
  let x := Qmin (Qmax (x - q_ox q) 0) (inject_Z (q_w q) - (1001#1000)) in
  let y := Qmin (Qmax (y - q_oy q) 0) (inject_Z (q_h q) - (1001#1000)) in
  let ix := to_int x in
  let iy := to_int y in
  let x := x - inject_Z ix in
  let y := y - inject_Z iy in
  let x0 := Z.max (ix - 1) 0 in
  let x1 := ix in
  let x2 := (ix + 1)%Z in
  let x3 := Z.min (ix + 2) (q_w q - 1) in
  let y0 := Z.max (iy - 1) 0 in
  let y1 := iy in
  let y2 := (iy + 1)%Z in
  let y3 := Z.min (iy + 2) (q_h q - 1) in
  let q0 := cerp1 (at_ q x0 y0) (at_ q x1 y0) (at_ q x2 y0) (at_ q x3 y0) x in
  let q1 := cerp1 (at_ q x0 y1) (at_ q x1 y1) (at_ q x2 y1) (at_ q x3 y1) x in
  let q2 := cerp1 (at_ q x0 y2) (at_ q x1 y2) (at_ q x2 y2) (at_ q x3 y2) x in
  let q3 := cerp1 (at_ q x0 y3) (at_ q x1 y3) (at_ q x2 y3) (at_ q x3 y3) x in
  cerp1 q0 q1 q2 q3 y.

(** [rungeKutta3]: the position [(x, y)] is passed by reference; the
    result is its final value. *)
Definition rungeKutta3 (q : FluidQuantity) (x y timestep : Q)
    (u v : FluidQuantity) : Q * Q :=
  let firstU := lerp u x y / q_hx q in
  let firstV := lerp v x y / q_hx q in
  let midX := x - (1#2)*timestep*firstU in
  let midY := y - (1#2)*timestep*firstV in
  let midU := lerp u midX midY / q_hx q in
  let midV := lerp v midX midY / q_hx q in
  let lastX := x - (3#4)*timestep*midU in
  let lastY := y - (3#4)*timestep*midV in
  let lastU := lerp u lastX lastY in
  let lastV := lerp v lastX lastY in
  (x - timestep*((2#9)*firstU + (3#9)*midU + (4#9)*lastU),
   y - timestep*((2#9)*firstV + (3#9)*midV + (4#9)*lastV)).

(** The body of the [advect] loop at grid point [(ix, iy)]. *)
Definition advect_point (q : FluidQuantity) (timestep : Q)
    (u v : FluidQuantity) (ix iy : Z) : Q :=
  let x := inject_Z ix + q_ox q in
  let y := inject_Z iy + q_oy q in
  let '(x, y) := rungeKutta3 q x y timestep u v in
  cerp q x y.

(** [advect(timestep, u, v)]: [idx] runs as [ix + iy*_w]. *)
Definition advect (q : FluidQuantity) (timestep : Q) (u v : FluidQuantity)
    : FluidQuantity :=
  with_dst q
    (fold_left
       (fun dst '(ix, iy) =>
          wr dst (ix + iy * q_w q) (advect_point q timestep u v ix iy))
       (cells (q_w q) (q_h q)) (q_dst q)).

(** [addInflow]: the loop bounds.  Note that both loops are bounded by
    [_h]: [for (x = max(ix0, 0); x < min(ix1, _h); x++)]. *)
Definition addInflow_cells (q : FluidQuantity) (x0 y0 x1 y1 : Q) : list (Z * Z) :=
  let ix0 := to_int (x0 / q_hx q - q_ox q) in
  let iy0 := to_int (y0 / q_hx q - q_oy q) in
  let ix1 := to_int (x1 / q_hx q - q_ox q) in
  let iy1 := to_int (y1 / q_hx q - q_oy q) in
  grid (zrange (Z.max ix0 0) (Z.min ix1 (q_h q)))
       (zrange (Z.max iy0 0) (Z.min iy1 (q_h q))).

(** [addInflow(x0, y0, x1, y1, v)]: max-blend of a smooth pulse. *)
Definition addInflow (sqrt : Q -> Q) (q : FluidQuantity) (x0 y0 x1 y1 v : Q)
    : FluidQuantity :=
  with_src q
    (fold_left
       (fun src '(x, y) =>
          let l := length sqrt
                     ((2*(inject_Z x + (1#2))*q_hx q - (x0 + x1))/(x1 - x0))
                     ((2*(inject_Z y + (1#2))*q_hx q - (y0 + y1))/(y1 - y0)) in
          let vi := cubicPulse l * v in
          if Qltb (Qabs (rd src (x + y * q_w q))) (Qabs vi)
          then wr src (x + y * q_w q) vi
          else src)
       (addInflow_cells q x0 y0 x1 y1) (q_src q)).

(** [at(x, y) = value] and [at(x, y) op= ...]. *)
Definition set_at (q : FluidQuantity) (x y : Z) (val : Q) : FluidQuantity :=
  with_src q (wr (q_src q) (x + y * q_w q) val).

Definition upd_at (q : FluidQuantity) (x y : Z) (f : Q -> Q) : FluidQuantity :=
  set_at q x y (f (at_ q x y)).

(** [memcpy(dst, src, n*sizeof(double))]. *)
Definition memcpy (dst src : list Q) (n : Z) : list Q :=
  fold_left (fun d i => wr d i (rd src i)) (zrange 0 n) dst.

End Memory.

(** ** [FluidSolver] *)

Inductive ITER_TYPE := ITER_GAUSS_SEIDEL | ITER_JACOBI.

Record FluidSolver := mkFluidSolver {
  s_d : FluidQuantity;
  s_u : FluidQuantity;
  s_v : FluidQuantity;
  s_w : Z;
  s_h : Z;
  s_hx : Q;
  s_density : Q;
  s_r : list Q;
  s_p : list Q;
  s_p2 : list Q;
  s_iteration_type : ITER_TYPE
}.

Definition with_r (st : FluidSolver) (r : list Q) : FluidSolver :=
  mkFluidSolver (s_d st) (s_u st) (s_v st) (s_w st) (s_h st) (s_hx st)
    (s_density st) r (s_p st) (s_p2 st) (s_iteration_type st).

Definition with_p (st : FluidSolver) (p p2 : list Q) : FluidSolver :=
  mkFluidSolver (s_d st) (s_u st) (s_v st) (s_w st) (s_h st) (s_hx st)
    (s_density st) (s_r st) p p2 (s_iteration_type st).

Definition with_fields (st : FluidSolver) (d u v : FluidQuantity) : FluidSolver :=
  mkFluidSolver d u v (s_w st) (s_h st) (s_hx st)
    (s_density st) (s_r st) (s_p st) (s_p2 st) (s_iteration_type st).

(** What the solver prints when it leaves the relaxation loop. *)
Inductive SolveReport :=
| Converged (iter : Z) (maxDelta : Q)  (* "Exiting solver after %d iterations" *)
| Exceeded (limit : Z) (maxDelta : Q). (* "Exceeded budget of %d iterations" *)

(** The relaxation loop shared by [project] and [project_jacobi]:
    [for (iter = 0; iter < limit; iter++) { sweep; if (maxDelta < 1e-5) return; }].
    [maxDelta] is uninitialised when [limit <= 0]; it is then [0] here. *)
Section Relax.
Variable St : Type.
Variable sweep : St -> St * Q.
Variable limit : Z.

Definition tolerance : Q := 1 # 100000.

Fixpoint relax_from (fuel : nat) (iter : Z) (s : St) (maxDelta : Q)
    : St * SolveReport :=
  match fuel with
  | O => (s, Exceeded limit maxDelta)
  | S n =>
      let '(s', maxDelta') := sweep s in
      if Qltb maxDelta' tolerance then (s', Converged iter maxDelta')
      else relax_from n (iter + 1) s' maxDelta'
  end.

Definition relax (s : St) : St * SolveReport :=
  relax_from (Z.to_nat limit) 0 s 0.

End Relax.

Section Solver.
Variable junk : Z -> Q.

Definition buildRhs (st : FluidSolver) : FluidSolver :=
  let scale := 1 / s_hx st in
  let u := s_u st in
  let v := s_v st in
  with_r st
    (fold_left
       (fun r '(x, y) =>
          wr r (x + y * s_w st)
            (- scale * (at_ junk u (x + 1) y - at_ junk u x y +
                        at_ junk v x (y + 1) - at_ junk v x y)))
       (cells (s_w st) (s_h st)) (s_r st)).

(** The new pressure of cell [(x, y)], neighbours read from [p]. *)
Definition newPressure (w h : Z) (scale : Q) (r p : list Q) (x y : Z) : Q :=
  let idx := (x + y * w)%Z in
  let '(diag, offDiag) :=
    if (x >? 0)%Z then (scale, - (scale * rd junk p (idx - 1))) else (0, 0) in
  let '(diag, offDiag) :=
    if (y >? 0)%Z then (diag + scale, offDiag - scale * rd junk p (idx - w))
    else (diag, offDiag) in
  let '(diag, offDiag) :=
    if (x <? w - 1)%Z then (diag + scale, offDiag - scale * rd junk p (idx + 1))
    else (diag, offDiag) in
  let '(diag, offDiag) :=
    if (y <? h - 1)%Z then (diag + scale, offDiag - scale * rd junk p (idx + w))
    else (diag, offDiag) in
  (rd junk r idx - offDiag) / diag.

(** One in-place (Gauss-Seidel) sweep of [project]. *)
Definition gs_sweep (scale : Q) (st : FluidSolver) : FluidSolver * Q :=
  let w := s_w st in
  let '(p, maxDelta) :=
    fold_left
      (fun '(p, maxDelta) '(x, y) =>
         let idx := (x + y * w)%Z in
         let newP := newPressure w (s_h st) scale (s_r st) p x y in
         (wr p idx newP, Qmax maxDelta (Qabs (rd junk p idx - newP))))
      (cells w (s_h st)) (s_p st, 0) in
  (with_p st p (s_p2 st), maxDelta).

(** One double-buffered (Jacobi) sweep of [project_jacobi], followed by
    [memcpy(_p, _p2, ...)]. *)
Definition jacobi_sweep (scale : Q) (st : FluidSolver) : FluidSolver * Q :=
  let w := s_w st in
  let p := s_p st in
  let '(p2, maxDelta) :=
    fold_left
      (fun '(p2, maxDelta) '(x, y) =>
         let idx := (x + y * w)%Z in
         let newP := newPressure w (s_h st) scale (s_r st) p x y in
         (wr p2 idx newP, Qmax maxDelta (Qabs (rd junk p idx - newP))))
      (cells w (s_h st)) (s_p2 st, 0) in
  (with_p st (memcpy junk p p2 (w * s_h st)) p2, maxDelta).

Definition project (limit : Z) (timestep : Q) (st : FluidSolver)
    : FluidSolver * SolveReport :=
  let scale := timestep / (s_density st * s_hx st * s_hx st) in
  relax _ (gs_sweep scale) limit st.

Definition project_jacobi (limit : Z) (timestep : Q) (st : FluidSolver)
    : FluidSolver * SolveReport :=
  let scale := timestep / (s_density st * s_hx st * s_hx st) in
  relax _ (jacobi_sweep scale) limit st.

Definition applyPressure (timestep : Q) (st : FluidSolver) : FluidSolver :=
  let scale := timestep / (s_density st * s_hx st) in
  let w := s_w st in
  let h := s_h st in
  let '(u, v) :=
    fold_left
      (fun '(u, v) '(x, y) =>
         let pv := rd junk (s_p st) (x + y * w) in
         let u := upd_at junk u x y (fun a => a - scale * pv) in
         let u := upd_at junk u (x + 1) y (fun a => a + scale * pv) in
         let v := upd_at junk v x y (fun a => a - scale * pv) in
         let v := upd_at junk v x (y + 1) (fun a => a + scale * pv) in
         (u, v))
      (cells w h) (s_u st, s_v st) in
  (* [_u->at(0, y) = _u->at(_w, y) = 0.0]: the right assignment first. *)
  let u := fold_left (fun u y => set_at (set_at u w y 0) 0 y 0)
             (zrange 0 h) u in
  let v := fold_left (fun v x => set_at (set_at v x h 0) x 0 0)
             (zrange 0 w) v in
  with_fields st (s_d st) u v.

(** The tail of [update]: [_d->advect(timestep, *_u, *_v)],
    [_u->advect(...)], [_v->advect(...)], then the three [flip]s.  Each
    [advect] writes only the [_dst] of its receiver. *)
Definition advect_fields (timestep : Q) (st : FluidSolver) : FluidSolver :=
  let d := advect junk (s_d st) timestep (s_u st) (s_v st) in
  let u := advect junk (s_u st) timestep (s_u st) (s_v st) in
  let v := advect junk (s_v st) timestep u (s_v st) in
  with_fields st (flip d) (flip u) (flip v).

Definition update (timestep : Q) (st : FluidSolver) : FluidSolver * SolveReport :=
  let st := buildRhs st in
  let '(st, report) :=
    match s_iteration_type st with
    | ITER_JACOBI => project_jacobi 600 timestep st
    | ITER_GAUSS_SEIDEL => project 600 timestep st
    end in
  (advect_fields timestep (applyPressure timestep st), report).

Definition solver_addInflow (sqrt : Q -> Q) (st : FluidSolver)
    (x y w h d u v : Q) : FluidSolver :=
  with_fields st
    (addInflow junk sqrt (s_d st) x y (x + w) (y + h) d)
    (addInflow junk sqrt (s_u st) x y (x + w) (y + h) u)
    (addInflow junk sqrt (s_v st) x y (x + w) (y + h) v).

End Solver.

(** [FluidSolver(w, h, density)]: [_r] is left uninitialised (modelled as
    zeros; [buildRhs] overwrites it), [_p] and [_p2] are zeroed.  [None] is
    a [new] that throws; the twelve allocations are numbered in the order
    the constructor makes them, and the sizes [_w + 1], [_h + 1] and
    [_w*_h] are computed in [int].  With [min(w, h) = 0] the cell size
    [1.0/0] is infinite in the source; [1/0] is [0] in [Q]. *)
Definition FluidSolver_new (ok : nat -> Z -> bool) (w h : Z) (density : Q)
    : option FluidSolver :=
  let hx := 1 / inject_Z (Z.min w h) in
  let iteration_type := ITER_JACOBI in
  match new_FluidQuantity ok 0 w h (1#2) (1#2) hx with
  | None => None
  | Some d =>
  match new_FluidQuantity ok 3 (int32 (w + 1)) h 0 (1#2) hx with
  | None => None
  | Some u =>
  match new_FluidQuantity ok 6 w (int32 (h + 1)) (1#2) 0 hx with
  | None => None
  | Some v =>
  match alloc ok 9 (int32 (w * h)) with
  | None => None
  | Some r =>
  match alloc ok 10 (int32 (w * h)) with
  | None => None
  | Some p =>
  match iteration_type with
  | ITER_JACOBI =>
      match alloc ok 11 (int32 (w * h)) with
      | None => None
      | Some p2 => Some (mkFluidSolver d u v w h hx density r p p2 iteration_type)
      end
  | ITER_GAUSS_SEIDEL =>
      Some (mkFluidSolver d u v w h hx density r p [] iteration_type)
  end end end end end end.

(** [toImage(rgba)]: one grey RGBA pixel per cell.  The [(int)] cast
    truncates toward zero ([to_int]); [rgba] is an [unsigned char] buffer,
    so a stored value is kept modulo 256, and a write past the end of the
    buffer (undefined in the source) is dropped. *)
Fixpoint set_byte (n : nat) (v : Z) (l : list Z) : list Z :=
  match l, n with
  | [], _ => []
  | _ :: t, O => v :: t
  | x :: t, S n' => x :: set_byte n' v t
  end.

Definition wr_byte (b : list Z) (i v : Z) : list Z :=
  if (0 <=? i)%Z && (i <? Z.of_nat (List.length b))%Z
  then set_byte (Z.to_nat i) (v mod 256) b else b.

(** [shade = (int)((1.0 - d)*255.0); shade = max(min(shade, 255), 0);] *)
Definition toImage_shade (d : Q) : Z :=
  let shade := to_int ((1 - d) * 255) in
  Z.max (Z.min shade 255) 0.

(** The conversion [(int)x] of a [double] is defined when the truncated
    value is an [int]: [-2^31 - 1 < x < 2^31]; otherwise it is undefined
    behaviour. *)
Definition int_cast_defined (x : Q) : Prop :=
  inject_Z (- 2^31) - 1 < x /\ x < inject_Z (2^31).

Definition toImage (junk : Z -> Q) (st : FluidSolver) (rgba : list Z) : list Z :=
  fold_left
    (fun rgba i =>
       let shade := toImage_shade (rd junk (q_src (s_d st)) i) in
       let rgba := wr_byte rgba (i * 4 + 0) shade in
       let rgba := wr_byte rgba (i * 4 + 1) shade in
       let rgba := wr_byte rgba (i * 4 + 2) shade in
       wr_byte rgba (i * 4 + 3) 255)
    (zrange 0 (s_w st * s_h st)) rgba.

(** ** Auxiliary definitions for the statements *)

(** The backward trace as the specification words it: every one of the
    three velocity samples is divided by the cell size. *)
Definition rungeKutta3_spec (junk : Z -> Q) (q : FluidQuantity) (x y timestep : Q)
    (u v : FluidQuantity) : Q * Q :=
  let firstU := lerp junk u x y / q_hx q in
  let firstV := lerp junk v x y / q_hx q in
  let midX := x - (1#2)*timestep*firstU in
  let midY := y - (1#2)*timestep*firstV in
  let midU := lerp junk u midX midY / q_hx q in
  let midV := lerp junk v midX midY / q_hx q in
  let lastX := x - (3#4)*timestep*midU in
  let lastY := y - (3#4)*timestep*midV in
  let lastU := lerp junk u lastX lastY / q_hx q in
  let lastV := lerp junk v lastX lastY / q_hx q in
  (x - timestep*((2#9)*firstU + (3#9)*midU + (4#9)*lastU),
   y - timestep*((2#9)*firstV + (3#9)*midV + (4#9)*lastV)).

(** A field of [w] by [h] samples whose two buffers hold [w*h] values. *)
Definition quantity_wf (q : FluidQuantity) (w h : Z) (ox oy : Q) : Prop :=
  q_w q = w /\ q_h q = h /\ q_ox q = ox /\ q_oy q = oy /\
  List.length (q_src q) = Z.to_nat (w * h) /\
  List.length (q_dst q) = Z.to_nat (w * h).

(** The shape the constructor gives a solver. *)
Definition solver_wf (st : FluidSolver) : Prop :=
  quantity_wf (s_d st) (s_w st) (s_h st) (1#2) (1#2) /\
  quantity_wf (s_u st) (s_w st + 1) (s_h st) 0 (1#2) /\
  quantity_wf (s_v st) (s_w st) (s_h st + 1) (1#2) 0 /\
  List.length (s_r st) = Z.to_nat (s_w st * s_h st) /\
  List.length (s_p st) = Z.to_nat (s_w st * s_h st) /\
  List.length (s_p2 st) = Z.to_nat (s_w st * s_h st).

(** The pressure solve [update] runs. *)
Definition pressure_solve (junk : Z -> Q) (timestep : Q) (st : FluidSolver)
    : FluidSolver * SolveReport :=
  match s_iteration_type st with
  | ITER_JACOBI => project_jacobi junk 600 timestep st
  | ITER_GAUSS_SEIDEL => project junk 600 timestep st
  end.

(** The sweep the pressure solve of [st] repeats. *)
Definition solve_sweep (junk : Z -> Q) (timestep : Q) (st : FluidSolver)
    : FluidSolver -> FluidSolver * Q :=
  let scale := timestep / (s_density st * s_hx st * s_hx st) in
  match s_iteration_type st with
  | ITER_JACOBI => jacobi_sweep junk scale
  | ITER_GAUSS_SEIDEL => gs_sweep junk scale
  end.

(** The state after [n] sweeps. *)
Definition sweep_iter {St : Type} (sweep : St -> St * Q) (n : nat) (s : St) : St :=
  Nat.iter n (fun s => fst (sweep s)) s.

(** The [maxDelta] of sweep number [n] (counting from 0). *)
Definition sweep_delta {St : Type} (sweep : St -> St * Q) (n : nat) (s : St) : Q :=
  snd (sweep (sweep_iter sweep n s)).

(** What a pressure sweep leaves alone. *)
Definition keeps_shape (st st' : FluidSolver) : Prop :=
  s_d st' = s_d st /\ s_u st' = s_u st /\ s_v st' = s_v st /\
  s_w st' = s_w st /\ s_h st' = s_h st /\ s_hx st' = s_hx st /\
  s_density st' = s_density st /\ s_r st' = s_r st /\
  s_iteration_type st' = s_iteration_type st /\
  List.length (s_p st') = List.length (s_p st) /\
  List.length (s_p2 st') = List.length (s_p2 st).
(** The twelve allocations of [FluidSolver(w, h, density)], in order, with
    their counts: the object and the two arrays of [_d], [_u] and [_v],
    then [_r], [_p] and [_p2]. *)
Definition FluidSolver_allocs (w h : Z) : list (nat * Z) :=
  let n := int32 (w * h) in
  let nu := int32 (int32 (w + 1) * h) in
  let nv := int32 (w * int32 (h + 1)) in
  [(0%nat, 1); (1%nat, n); (2%nat, n); (3%nat, 1); (4%nat, nu); (5%nat, nu);
   (6%nat, 1); (7%nat, nv); (8%nat, nv); (9%nat, n); (10%nat, n); (11%nat, n)]%Z.

(** An allocation that throws: a negative count, or no memory for it. *)
Definition alloc_throws (ok : nat -> Z -> bool) (a : nat * Z) : bool :=
  ((snd a <? 0)%Z || negb (ok (fst a) (snd a)))%bool.

(** The solver with another density field. *)
Definition with_d (st : FluidSolver) (d : FluidQuantity) : FluidSolver :=
  with_fields st d (s_u st) (s_v st).

Definition sumQ (l : list Q) : Q := fold_right Qplus 0 l.

Definition cell_eqb (a b : Z * Z) : bool := (fst a =? fst b)%Z && (snd a =? snd b)%Z.

(** The pressure equations of every cell hold for [p]: a sweep from [p]
    computes [p] again. *)
Definition at_rest (junk : Z -> Q) (w h : Z) (scale : Q) (r p : list Q) : Prop :=
  forall x y, (0 <= x < w)%Z -> (0 <= y < h)%Z ->
    newPressure junk w h scale r p x y == rd junk p (x + y * w).

(** Every face of a velocity field is 0. *)
Definition faces_zero (junk : Z -> Q) (q : FluidQuantity) : Prop :=
  forall i j, (0 <= i < q_w q)%Z -> (0 <= j < q_h q)%Z -> at_ junk q i j == 0.

(** Every cell of a [w x h] buffer is 0. *)
Definition cells_zero (junk : Z -> Q) (w h : Z) (p : list Q) : Prop :=
  forall x y, (0 <= x < w)%Z -> (0 <= y < h)%Z -> rd junk p (x + y * w) == 0.

(** ** Concrete inputs *)

(** Memory outside the buffers read as zero (no concrete input below
    reads outside a buffer anyway). *)
Definition no_junk : Z -> Q := fun _ => 0.

(** A 2x2 solver holding a divergence-free circulation with zero boundary
    faces: [u(1,0) = 1], [u(1,1) = -1], [v(0,1) = -1], [v(1,1) = 1]. *)
Definition circ_state : FluidSolver :=
  mkFluidSolver
    (mkFluidQuantity [0;0;0;0] [0;0;0;0] 2 2 (1#2) (1#2) (1#2))
    (mkFluidQuantity [0;1;0;0;-1;0] [0;0;0;0;0;0] 3 2 0 (1#2) (1#2))
    (mkFluidQuantity [0;0;-1;1;0;0] [0;0;0;0;0;0] 2 3 (1#2) 0 (1#2))
    2 2 (1#2) 1 [0;0;0;0] [0;0;0;0] [0;0;0;0] ITER_JACOBI.

(** The [u] field of a 2x2 solver moving uniformly at speed 1, and a [v]
    field at rest. *)
Definition uniform_u : FluidQuantity :=
  mkFluidQuantity [1;1;1;1;1;1] [0;0;0;0;0;0] 3 2 0 (1#2) (1#2).

Definition still_v : FluidQuantity :=
  mkFluidQuantity [0;0;0;0;0;0] [0;0;0;0;0;0] 2 3 (1#2) 0 (1#2).

(** The [v] field of a fresh 2x2 solver: 2 columns, 3 rows. *)
Definition inflow_v : FluidQuantity :=
  mkFluidQuantity [0;0;0;0;0;0] [0;0;0;0;0;0] 2 3 (1#2) 0 (1#2).

(** A 2x2 cell-centred field with a single 1 at cell [(1, 0)]. *)
Definition corner_field : FluidQuantity :=
  mkFluidQuantity [0;1;0;0] [0;0;0;0] 2 2 (1#2) (1#2) (1#2).

(** The solver [FluidSolver(2, 2, 1.0)] builds. *)
Definition fresh_2x2 : FluidSolver :=
  mkFluidSolver
    (mkFluidQuantity [0;0;0;0] [0;0;0;0] 2 2 (1#2) (1#2) (1#2))
    (mkFluidQuantity [0;0;0;0;0;0] [0;0;0;0;0;0] 3 2 0 (1#2) (1#2))
    (mkFluidQuantity [0;0;0;0;0;0] [0;0;0;0;0;0] 2 3 (1#2) 0 (1#2))
    2 2 (1#2) 1 [0;0;0;0] [0;0;0;0] [0;0;0;0] ITER_JACOBI.

(** ** Lemmas *)

(** *** Rationals *)

Lemma to_int_compat (x y : Q) : x == y -> to_int x = to_int y.
Proof.
  unfold Qeq, to_int; intros E.
  rewrite <- (Z.quot_mul_cancel_r (Qnum x) (Zpos (Qden x)) (Zpos (Qden y)))
    by lia.
  rewrite E, (Z.mul_comm (Zpos (Qden x))).
  apply Z.quot_mul_cancel_r; lia.
Qed.

Lemma to_int_inject (x : Q) (n : Z) : x == inject_Z n -> to_int x = n.
Proof.
  intros E. rewrite (to_int_compat _ _ E). unfold to_int; simpl.
  apply Z.quot_1_r.
Qed.

Lemma to_int_nonneg_bounds (x : Q) :
  0 <= x -> (0 <= to_int x)%Z /\ inject_Z (to_int x) <= x.
Proof.
  destruct x as [n d]. unfold Qle, to_int; simpl. intros H.
  rewrite Z.mul_1_r in H.
  rewrite Z.quot_div_nonneg by lia.
  split; [apply Z.div_pos; lia|].
  rewrite Z.mul_1_r, Z.mul_comm. apply Z.mul_div_le. lia.
Qed.

#[global] Instance to_int_Proper : Proper (Qeq ==> eq) to_int.
Proof. intros x y E. now apply to_int_compat. Qed.

#[global] Instance lerp1_Proper : Proper (Qeq ==> Qeq ==> Qeq ==> Qeq) lerp1.
Proof. intros a a' Ea b b' Eb x x' Ex. unfold lerp1. now rewrite Ea, Eb, Ex. Qed.

#[global] Instance cerp1_Proper :
  Proper (Qeq ==> Qeq ==> Qeq ==> Qeq ==> Qeq ==> Qeq) cerp1.
Proof.
  intros a a' Ea b b' Eb c c' Ec d d' Ed x x' Ex. unfold cerp1.
  now rewrite Ea, Eb, Ec, Ed, Ex.
Qed.

Lemma Qltb_iff (a b : Q) : Qltb a b = true <-> a < b.
Proof.
  unfold Qltb. rewrite Qlt_alt. destruct (a ?= b); split; congruence.
Qed.

(** The clamp of [cerp]: the result lies between the smallest and the
    largest of the four samples. *)
Lemma cerp1_bounds (a b c d x : Q) :
  Qmin a (Qmin b (Qmin c d)) <= cerp1 a b c d x /\
  cerp1 a b c d x <= Qmax a (Qmax b (Qmax c d)).
Proof.
  unfold cerp1; cbv zeta.
  set (lo := Qmin a (Qmin b (Qmin c d))).
  set (hi := Qmax a (Qmax b (Qmax c d))).
  assert (lo <= hi).
  { apply Qle_trans with a; [apply Q.le_min_l | apply Q.le_max_l]. }
  split.
  - apply Q.min_glb; [apply Q.le_max_r | assumption].
  - apply Q.le_min_r.
Qed.

(** *** Buffers *)

Lemma set_nth_length (n : nat) (v : Q) (l : list Q) :
  List.length (set_nth n v l) = List.length l.
Proof.
  revert n; induction l as [|a l IH]; intros [|n]; simpl; auto.
Qed.

Lemma nth_set_nth (n m : nat) (v : Q) (l : list Q) :
  (n < List.length l)%nat ->
  nth m (set_nth n v l) 0 = if Nat.eqb m n then v else nth m l 0.
Proof.
  revert n m; induction l as [|a l IH]; intros [|n] [|m] H; simpl in *;
    try lia; try reflexivity.
  apply IH; lia.
Qed.

Lemma in_buf_spec (b : list Q) (i : Z) :
  in_buf b i = true <-> (0 <= i < Z.of_nat (List.length b))%Z.
Proof.
  unfold in_buf. rewrite andb_true_iff, Z.leb_le, Z.ltb_lt. tauto.
Qed.

Lemma wr_length (b : list Q) (i : Z) (v : Q) :
  List.length (wr b i v) = List.length b.
Proof. unfold wr. destruct (in_buf b i); [apply set_nth_length | reflexivity]. Qed.

Lemma in_buf_wr (b : list Q) (i j : Z) (v : Q) :
  in_buf (wr b i v) j = in_buf b j.
Proof. unfold in_buf. now rewrite wr_length. Qed.

Section Rd.
Variable junk : Z -> Q.

Lemma rd_wr (b : list Q) (i j : Z) (v : Q) :
  in_buf b i = true ->
  rd junk (wr b i v) j = if Z.eqb j i then v else rd junk b j.
Proof.
  intros Hi. unfold rd. rewrite in_buf_wr. unfold wr. rewrite Hi.
  pose proof Hi as Hi'. apply in_buf_spec in Hi'.
  destruct (Z.eqb_spec j i) as [->|Hne].
  - rewrite Hi, nth_set_nth by lia. now rewrite Nat.eqb_refl.
  - destruct (in_buf b j) eqn:Hj; [|reflexivity].
    apply in_buf_spec in Hj.
    rewrite nth_set_nth by lia.
    destruct (Nat.eqb_spec (Z.to_nat j) (Z.to_nat i)); [lia | reflexivity].
Qed.

Lemma rd_wr_same (b : list Q) (i : Z) (v : Q) :
  in_buf b i = true -> rd junk (wr b i v) i = v.
Proof. intros H. rewrite rd_wr by exact H. now rewrite Z.eqb_refl. Qed.

Lemma rd_wr_other (b : list Q) (i j : Z) (v : Q) :
  j <> i -> rd junk (wr b i v) j = rd junk b j.
Proof.
  intros Hne. destruct (in_buf b i) eqn:Hi.
  - rewrite rd_wr by exact Hi. now rewrite (proj2 (Z.eqb_neq j i) Hne).
  - unfold wr. now rewrite Hi.
Qed.

(** A fold of writes: the value left at index [j] is the one every write
    to [j] stores, or the old one when nothing writes [j]. *)
Lemma fold_wr_at {A : Type} (idx : A -> Z) (val : A -> Q) (L : list A)
    (b : list Q) (j : Z) (v : Q) :
  (forall a, In a L -> in_buf b (idx a) = true) ->
  (forall a, In a L -> idx a = j -> val a = v) ->
  (In j (map idx L) \/ rd junk b j = v) ->
  rd junk (fold_left (fun b a => wr b (idx a) (val a)) L b) j = v.
Proof.
  revert b; induction L as [|c L IH]; intros b Hin Hval Hj; simpl in *.
  - destruct Hj as [[]|Hj]; exact Hj.
  - apply IH.
    + intros a Ha. rewrite in_buf_wr. auto.
    + auto.
    + assert (Hc : in_buf b (idx c) = true) by auto.
      destruct (Z.eq_dec j (idx c)) as [->|Hne].
      * right. rewrite rd_wr_same by exact Hc. auto.
      * destruct Hj as [[Hj|Hj]|Hj]; [congruence|now left|].
        right. now rewrite rd_wr_other.
Qed.

(** A fold of writes that all store a value satisfying [P] keeps [P] at
    every index where it held. *)
Lemma fold_wr_keep {A : Type} (idx : A -> Z) (val : A -> Q) (P : Q -> Prop)
    (L : list A) (b : list Q) (j : Z) :
  (forall a, In a L -> P (val a)) ->
  P (rd junk b j) ->
  P (rd junk (fold_left (fun b a => wr b (idx a) (val a)) L b) j).
Proof.
  revert b; induction L as [|c L IH]; intros b Hval Hj; simpl in *; auto.
  apply IH; auto.
  destruct (Z.eq_dec j (idx c)) as [->|Hne].
  - destruct (in_buf b (idx c)) eqn:Hc.
    + rewrite rd_wr_same by exact Hc. auto.
    + unfold wr. now rewrite Hc.
  - now rewrite rd_wr_other.
Qed.

(** A fold whose every step keeps a cell or raises its magnitude. *)
Lemma fold_magnitude {A : Type} (step : list Q -> A -> list Q) (L : list A)
    (b : list Q) (j : Z) :
  (forall s a, rd junk (step s a) j = rd junk s j \/
               Qabs (rd junk s j) < Qabs (rd junk (step s a) j)) ->
  rd junk (fold_left step L b) j = rd junk b j \/
  Qabs (rd junk b j) < Qabs (rd junk (fold_left step L b) j).
Proof.
  intros Hs. revert b; induction L as [|a L IH]; intros b; simpl.
  - left; reflexivity.
  - destruct (IH (step b a)) as [E|E]; destruct (Hs b a) as [F|F].
    + left; congruence.
    + right; rewrite E; exact F.
    + right; rewrite <- F; exact E.
    + right; eapply Qlt_trans; eassumption.
Qed.

End Rd.

Lemma fold_wr_length {A : Type} (idx : A -> Z) (val : A -> Q) (L : list A)
    (b : list Q) :
  List.length (fold_left (fun b a => wr b (idx a) (val a)) L b) = List.length b.
Proof.
  revert b; induction L as [|c L IH]; intros b; simpl; auto.
  now rewrite IH, wr_length.
Qed.

(** *** Loops *)

Lemma in_zrange (lo hi k : Z) : In k (zrange lo hi) <-> (lo <= k < hi)%Z.
Proof.
  unfold zrange. rewrite in_map_iff. split.
  - intros [n [<- Hn]]. apply in_seq in Hn. lia.
  - intros H. exists (Z.to_nat (k - lo)). split; [lia|].
    apply in_seq. lia.
Qed.

Lemma in_grid (xs ys : list Z) (x y : Z) :
  In (x, y) (grid xs ys) <-> In x xs /\ In y ys.
Proof.
  unfold grid. rewrite in_flat_map. split.
  - intros [y' [Hy Hx]]. apply in_map_iff in Hx.
    destruct Hx as [x' [E Hx]]. inversion E; subst. auto.
  - intros [Hx Hy]. exists y. split; [exact Hy|].
    apply in_map_iff. exists x. auto.
Qed.

Lemma in_cells (w h x y : Z) :
  In (x, y) (cells w h) <-> (0 <= x < w)%Z /\ (0 <= y < h)%Z.
Proof. unfold cells. rewrite in_grid, !in_zrange. reflexivity. Qed.

(** Row-major flat indices of distinct cells are distinct. *)
Lemma flat_index_inj (w x y x' y' : Z) :
  (0 <= x < w)%Z -> (0 <= x' < w)%Z -> (x + y * w = x' + y' * w)%Z ->
  x = x' /\ y = y'.
Proof. intros Hx Hx' E. assert (y = y') by nia. subst. lia. Qed.

Lemma flat_index_in_buf (b : list Q) (w h x y : Z) :
  List.length b = Z.to_nat (w * h) ->
  (0 <= x < w)%Z -> (0 <= y < h)%Z -> in_buf b (x + y * w) = true.
Proof. intros Hl Hx Hy. apply in_buf_spec. rewrite Hl. nia. Qed.

Lemma fold_left_ext_eq {A B : Type} (f g : B -> A -> B) (L : list A) (b : B) :
  (forall b a, f b a = g b a) -> fold_left f L b = fold_left g L b.
Proof.
  intros E. revert b; induction L as [|a L IH]; intros b; simpl; auto.
  now rewrite E, IH.
Qed.

#[global] Instance Qmax_Proper : Proper (Qeq ==> Qeq ==> Qeq) Qmax :=
  Q.max_compat.
#[global] Instance Qmin_Proper : Proper (Qeq ==> Qeq ==> Qeq) Qmin :=
  Q.min_compat.

(** *** The coordinate clamp of [lerp] and [cerp] *)

Lemma inject_Z_le (a b : Z) : (a <= b)%Z -> inject_Z a <= inject_Z b.
Proof. now rewrite Zle_Qle. Qed.

(** An exact in-range grid coordinate passes the clamp unchanged. *)
Lemma clamp_exact (x o : Q) (n k : Z) :
  x - o == inject_Z k -> (0 <= k <= n - 2)%Z ->
  Qmin (Qmax (x - o) 0) (inject_Z n - (1001#1000)) == inject_Z k.
Proof.
  intros E Hk.
  assert (H0 : 0 <= inject_Z k) by (apply (inject_Z_le 0); lia).
  assert (H1 : inject_Z k + 2 <= inject_Z n).
  { change 2 with (inject_Z 2). rewrite <- inject_Z_plus.
    apply inject_Z_le; lia. }
  rewrite E, Q.max_l by exact H0.
  apply Q.min_l. lra.
Qed.

(** With at least two samples along an axis, the clamped coordinate has
    its integer part in [0, n-2]. *)
Lemma clamp_index (x o : Q) (n : Z) :
  (2 <= n)%Z ->
  let c := Qmin (Qmax (x - o) 0) (inject_Z n - (1001#1000)) in
  (0 <= to_int c <= n - 2)%Z.
Proof.
  intros Hn c.
  assert (H2 : 2 <= inject_Z n) by (apply (inject_Z_le 2); exact Hn).
  assert (Hc0 : 0 <= c).
  { apply Q.min_glb; [apply Q.le_max_r | lra]. }
  assert (Hc1 : c <= inject_Z n - (1001#1000)) by apply Q.le_min_r.
  destruct (to_int_nonneg_bounds c Hc0) as [Hlo Hle].
  split; [exact Hlo|].
  clearbody c.
  assert (Hlt : inject_Z (to_int c) < inject_Z (n - 1)).
  { unfold Z.sub. rewrite inject_Z_plus.
    assert (E1 : inject_Z (-1) == -1) by reflexivity.
    rewrite E1. lra. }
  rewrite <- Zlt_Qlt in Hlt. lia.
Qed.

(** With a single sample along an axis, the clamp goes below zero. *)
Lemma clamp_single (x o : Q) :
  Qmin (Qmax (x - o) 0) (inject_Z 1 - (1001#1000)) == -(1#1000).
Proof.
  rewrite Q.min_r.
  - reflexivity.
  - apply Qle_trans with 0; [discriminate | apply Q.le_max_r].
Qed.

(** *** One-dimensional interpolation *)

Lemma cerp1_at0 (a b c d : Q) : cerp1 a b c d 0 == b.
Proof.
  unfold cerp1; cbv zeta.
  assert (Et : a*(0 - (1#2)*0 + 1*(0*0) - (1#2)*(0*0*0)) +
               b*(1 + 0*0 - (5#2)*(0*0) + (3#2)*(0*0*0)) +
               c*(0 + (1#2)*0 + 2*(0*0) - (3#2)*(0*0*0)) +
               d*(0 + 0*0 - (1#2)*(0*0) + (1#2)*(0*0*0)) == b) by ring.
  rewrite Et.
  rewrite Q.max_l.
  - apply Q.min_l. apply Qle_trans with (Qmax b (Qmax c d));
      [apply Q.le_max_l | apply Q.le_max_r].
  - apply Qle_trans with (Qmin b (Qmin c d));
      [apply Q.le_min_r | apply Q.le_min_l].
Qed.

Lemma cerp1_zero (a b c d x : Q) :
  a == 0 -> b == 0 -> c == 0 -> d == 0 -> cerp1 a b c d x == 0.
Proof.
  intros Ea Eb Ec Ed. rewrite Ea, Eb, Ec, Ed.
  destruct (cerp1_bounds 0 0 0 0 x) as [Hlo Hhi].
  apply Qle_antisym; [exact Hhi | exact Hlo].
Qed.

(** The samples [(b, b, c, b)] at parameter [-0.001] give back [b]: the
    Catmull-Rom weight of [c] is negative there, so the clamp wins. *)
Lemma cerp1_single (b c x : Q) : x == -(1#1000) -> cerp1 b b c b x == b.
Proof.
  intros Ex. rewrite Ex. unfold cerp1; cbv zeta.
  set (t := b*(0 - (1#2)*(-(1#1000)) + 1*(-(1#1000)*(-(1#1000)))
                 - (1#2)*(-(1#1000)*(-(1#1000))*(-(1#1000)))) +
            b*(1 + 0*(-(1#1000)) - (5#2)*(-(1#1000)*(-(1#1000)))
                 + (3#2)*(-(1#1000)*(-(1#1000))*(-(1#1000)))) +
            c*(0 + (1#2)*(-(1#1000)) + 2*(-(1#1000)*(-(1#1000)))
                 - (3#2)*(-(1#1000)*(-(1#1000))*(-(1#1000)))) +
            b*(0 + 0*(-(1#1000)) - (1#2)*(-(1#1000)*(-(1#1000)))
                 + (1#2)*(-(1#1000)*(-(1#1000))*(-(1#1000))))).
  assert (Et : t == b + (-(3983988 # 8000000000)) * (c - b))
    by (unfold t; ring).
  assert (Emin : Qmin b (Qmin b (Qmin c b)) == Qmin b c).
  { destruct (Qlt_le_dec b c).
    - rewrite (Q.min_r c b) by lra. rewrite !Q.min_id.
      rewrite (Q.min_l b c) by lra. reflexivity.
    - rewrite (Q.min_l c b) by lra. rewrite !(Q.min_r b c) by lra.
      reflexivity. }
  assert (Emax : Qmax b (Qmax b (Qmax c b)) == Qmax b c).
  { destruct (Qlt_le_dec b c).
    - rewrite (Q.max_l c b) by lra. rewrite !(Q.max_r b c) by lra.
      reflexivity.
    - rewrite (Q.max_r c b) by lra. rewrite !Q.max_id.
      rewrite (Q.max_l b c) by lra. reflexivity. }
  rewrite Emin, Emax, Et.
  destruct (Qlt_le_dec b c).
  - rewrite (Q.min_l b c), (Q.max_r b c) by lra.
    rewrite Q.max_r by lra. apply Q.min_l. lra.
  - rewrite (Q.min_r b c), (Q.max_l b c) by lra.
    rewrite Q.max_l by lra. apply Q.min_r. lra.
Qed.

(** *** Sampling *)

Section Sampling.
Variable junk : Z -> Q.

(** Bilinear sampling at an interior grid point returns the stored value. *)
Lemma lerp_grid_point (q : FluidQuantity) (ix iy : Z) :
  (0 <= ix <= q_w q - 2)%Z -> (0 <= iy <= q_h q - 2)%Z ->
  lerp junk q (inject_Z ix + q_ox q) (inject_Z iy + q_oy q) == at_ junk q ix iy.
Proof.
  intros Hix Hiy. unfold lerp; cbv zeta.
  assert (Hx : Qmin (Qmax (inject_Z ix + q_ox q - q_ox q) 0)
                 (inject_Z (q_w q) - (1001#1000)) == inject_Z ix)
    by (apply clamp_exact; [ring | lia]).
  assert (Hy : Qmin (Qmax (inject_Z iy + q_oy q - q_oy q) 0)
                 (inject_Z (q_h q) - (1001#1000)) == inject_Z iy)
    by (apply clamp_exact; [ring | lia]).
  rewrite (to_int_inject _ _ Hx), (to_int_inject _ _ Hy).
  rewrite Hx, Hy, !Z.add_0_r.
  unfold lerp1. ring.
Qed.

(** Sampling a field whose column [x = 0] is zero, on that column. *)
Lemma lerp_col0 (q : FluidQuantity) (x y : Q) :
  q_ox q = 0 -> (2 <= q_w q)%Z -> (2 <= q_h q)%Z ->
  (forall k, (0 <= k < q_h q)%Z -> at_ junk q 0 k = 0) ->
  x == 0 -> lerp junk q x y == 0.
Proof.
  intros Hox Hw Hh Hcol Ex. unfold lerp; cbv zeta. rewrite Hox.
  assert (Hx : Qmin (Qmax (x - 0) 0) (inject_Z (q_w q) - (1001#1000))
               == inject_Z 0)
    by (apply clamp_exact; [rewrite Ex; reflexivity | lia]).
  pose proof (clamp_index y (q_oy q) (q_h q) Hh) as Hiy; cbv zeta in Hiy.
  rewrite (to_int_inject _ _ Hx), Hx.
  set (iy := to_int (Qmin (Qmax (y - q_oy q) 0) (inject_Z (q_h q) - (1001#1000))))
    in *.
  rewrite !Z.add_0_r, (Hcol iy), (Hcol (iy + 1)%Z) by lia.
  unfold lerp1. ring.
Qed.

(** Sampling a field whose row [y = 0] is zero, on that row. *)
Lemma lerp_row0 (q : FluidQuantity) (x y : Q) :
  q_oy q = 0 -> (2 <= q_w q)%Z -> (2 <= q_h q)%Z ->
  (forall k, (0 <= k < q_w q)%Z -> at_ junk q k 0 = 0) ->
  y == 0 -> lerp junk q x y == 0.
Proof.
  intros Hoy Hw Hh Hrow Ey. unfold lerp; cbv zeta. rewrite Hoy.
  assert (Hy : Qmin (Qmax (y - 0) 0) (inject_Z (q_h q) - (1001#1000))
               == inject_Z 0)
    by (apply clamp_exact; [rewrite Ey; reflexivity | lia]).
  pose proof (clamp_index x (q_ox q) (q_w q) Hw) as Hix; cbv zeta in Hix.
  rewrite (to_int_inject _ _ Hy), Hy.
  set (ix := to_int (Qmin (Qmax (x - q_ox q) 0) (inject_Z (q_w q) - (1001#1000))))
    in *.
  rewrite !Z.add_0_r, (Hrow ix), (Hrow (ix + 1)%Z) by lia.
  unfold lerp1. ring.
Qed.

Lemma cerp_col0 (q : FluidQuantity) (x y : Q) :
  q_ox q = 0 -> (2 <= q_w q)%Z -> (2 <= q_h q)%Z ->
  (forall k, (0 <= k < q_h q)%Z -> at_ junk q 0 k = 0) ->
  x == 0 -> cerp junk q x y == 0.
Proof.
  intros Hox Hw Hh Hcol Ex. unfold cerp; cbv zeta. rewrite Hox.
  assert (Hx : Qmin (Qmax (x - 0) 0) (inject_Z (q_w q) - (1001#1000))
               == inject_Z 0)
    by (apply clamp_exact; [rewrite Ex; reflexivity | lia]).
  pose proof (clamp_index y (q_oy q) (q_h q) Hh) as Hiy; cbv zeta in Hiy.
  rewrite (to_int_inject _ _ Hx), Hx.
  set (iy := to_int (Qmin (Qmax (y - q_oy q) 0) (inject_Z (q_h q) - (1001#1000))))
    in *.
  assert (E0 : inject_Z 0 - inject_Z 0 == 0) by reflexivity.
  rewrite E0, !cerp1_at0.
  change (Z.max (0 - 1) 0) with 0%Z.
  apply cerp1_zero; rewrite Hcol; try reflexivity; lia.
Qed.

Lemma cerp_row0 (q : FluidQuantity) (x y : Q) :
  q_oy q = 0 -> (2 <= q_w q)%Z -> (2 <= q_h q)%Z ->
  (forall k, (0 <= k < q_w q)%Z -> at_ junk q k 0 = 0) ->
  y == 0 -> cerp junk q x y == 0.
Proof.
  intros Hoy Hw Hh Hrow Ey. unfold cerp; cbv zeta. rewrite Hoy.
  assert (Hy : Qmin (Qmax (y - 0) 0) (inject_Z (q_h q) - (1001#1000))
               == inject_Z 0)
    by (apply clamp_exact; [rewrite Ey; reflexivity | lia]).
  pose proof (clamp_index x (q_ox q) (q_w q) Hw) as Hix; cbv zeta in Hix.
  rewrite (to_int_inject _ _ Hy), Hy.
  set (ix := to_int (Qmin (Qmax (x - q_ox q) 0) (inject_Z (q_w q) - (1001#1000))))
    in *.
  assert (E0 : inject_Z 0 - inject_Z 0 == 0) by reflexivity.
  rewrite E0, cerp1_at0.
  apply cerp1_zero; rewrite Hrow; try reflexivity; lia.
Qed.

Lemma rungeKutta3_x_zero (q : FluidQuantity) (x y timestep : Q)
    (u v : FluidQuantity) :
  (forall x' y', x' == 0 -> lerp junk u x' y' == 0) ->
  x == 0 -> fst (rungeKutta3 junk q x y timestep u v) == 0.
Proof.
  intros Hu Ex. unfold rungeKutta3; cbv zeta; simpl fst.
  set (midY := y - (1#2)*timestep*(lerp junk v x y / q_hx q)).
  set (lastY := y - (3#4)*timestep*(lerp junk v
                  (x - (1#2)*timestep*(lerp junk u x y / q_hx q)) midY / q_hx q)).
  assert (E1 : lerp junk u x y == 0) by auto.
  assert (E2 : lerp junk u (x - (1#2)*timestep*(lerp junk u x y / q_hx q)) midY == 0).
  { apply Hu. rewrite E1, Ex. unfold Qdiv. ring. }
  assert (E3 : lerp junk u (x - (3#4)*timestep*(lerp junk u
                 (x - (1#2)*timestep*(lerp junk u x y / q_hx q)) midY / q_hx q))
                 lastY == 0).
  { apply Hu. rewrite E2, Ex. unfold Qdiv. ring. }
  rewrite E3, E2, E1, Ex. unfold Qdiv. ring.
Qed.

Lemma rungeKutta3_y_zero (q : FluidQuantity) (x y timestep : Q)
    (u v : FluidQuantity) :
  (forall x' y', y' == 0 -> lerp junk v x' y' == 0) ->
  y == 0 -> snd (rungeKutta3 junk q x y timestep u v) == 0.
Proof.
  intros Hv Ey. unfold rungeKutta3; cbv zeta; simpl snd.
  set (midX := x - (1#2)*timestep*(lerp junk u x y / q_hx q)).
  set (lastX := x - (3#4)*timestep*(lerp junk u midX
                  (y - (1#2)*timestep*(lerp junk v x y / q_hx q)) / q_hx q)).
  assert (E1 : lerp junk v x y == 0) by auto.
  assert (E2 : lerp junk v midX (y - (1#2)*timestep*(lerp junk v x y / q_hx q)) == 0).
  { apply Hv. rewrite E1, Ey. unfold Qdiv. ring. }
  assert (E3 : lerp junk v lastX (y - (3#4)*timestep*(lerp junk v midX
                 (y - (1#2)*timestep*(lerp junk v x y / q_hx q)) / q_hx q)) == 0).
  { apply Hv. rewrite E2, Ey. unfold Qdiv. ring. }
  rewrite E3, E2, E1, Ey. unfold Qdiv. ring.
Qed.

#[global] Instance cerp_Proper (q : FluidQuantity) :
  Proper (Qeq ==> Qeq ==> Qeq) (cerp junk q).
Proof.
  intros x x' Ex y y' Ey. unfold cerp.
  assert (HX : Qmin (Qmax (x - q_ox q) 0) (inject_Z (q_w q) - (1001#1000)) ==
               Qmin (Qmax (x' - q_ox q) 0) (inject_Z (q_w q) - (1001#1000)))
    by (rewrite Ex; reflexivity).
  assert (HY : Qmin (Qmax (y - q_oy q) 0) (inject_Z (q_h q) - (1001#1000)) ==
               Qmin (Qmax (y' - q_oy q) 0) (inject_Z (q_h q) - (1001#1000)))
    by (rewrite Ey; reflexivity).
  revert HX HY.
  generalize (Qmin (Qmax (x - q_ox q) 0) (inject_Z (q_w q) - (1001#1000)))
             (Qmin (Qmax (x' - q_ox q) 0) (inject_Z (q_w q) - (1001#1000)))
             (Qmin (Qmax (y - q_oy q) 0) (inject_Z (q_h q) - (1001#1000)))
             (Qmin (Qmax (y' - q_oy q) 0) (inject_Z (q_h q) - (1001#1000))).
  intros X X' Y Y' HX HY; cbv zeta.
  rewrite (to_int_Proper _ _ HX), (to_int_Proper _ _ HY).
  generalize (to_int X') (to_int Y'); intros ix iy.
  rewrite HX, HY. reflexivity.
Qed.

End Sampling.

(** *** Advection, projection and the step *)

Section Step.
Variable junk : Z -> Q.

Lemma advect_dst_at (q : FluidQuantity) (timestep : Q) (u v : FluidQuantity)
    (ix iy : Z) :
  List.length (q_dst q) = Z.to_nat (q_w q * q_h q) ->
  (0 <= ix < q_w q)%Z -> (0 <= iy < q_h q)%Z ->
  rd junk (q_dst (advect junk q timestep u v)) (ix + iy * q_w q) =
  advect_point junk q timestep u v ix iy.
Proof.
  intros Hl Hix Hiy. unfold advect; simpl.
  rewrite (fold_left_ext_eq _
             (fun b a => wr b (fst a + snd a * q_w q)
                           (advect_point junk q timestep u v (fst a) (snd a))))
    by (intros b [a1 a2]; reflexivity).
  apply fold_wr_at.
  - intros [x y] Hin. apply in_cells in Hin. simpl.
    apply (flat_index_in_buf _ _ (q_h q)); tauto.
  - intros [x y] Hin E. apply in_cells in Hin. simpl in *.
    destruct (flat_index_inj (q_w q) x y ix iy) as [-> ->]; tauto.
  - left. apply in_map_iff. exists (ix, iy). split; [reflexivity|].
    now apply in_cells.
Qed.

Lemma advect_w (q : FluidQuantity) (timestep : Q) (u v : FluidQuantity) :
  q_w (advect junk q timestep u v) = q_w q.
Proof. reflexivity. Qed.

(** The sample [advect] stores at [(ix, iy)], without the pattern match. *)
Lemma advect_point_eq (q : FluidQuantity) (timestep : Q) (u v : FluidQuantity)
    (ix iy : Z) :
  advect_point junk q timestep u v ix iy =
  cerp junk q
    (fst (rungeKutta3 junk q (inject_Z ix + q_ox q) (inject_Z iy + q_oy q) timestep u v))
    (snd (rungeKutta3 junk q (inject_Z ix + q_ox q) (inject_Z iy + q_oy q) timestep u v)).
Proof. unfold advect_point. now destruct (rungeKutta3 _ _ _ _ _ _ _). Qed.

Lemma advect_dst_length (q : FluidQuantity) (timestep : Q) (u v : FluidQuantity) :
  List.length (q_dst (advect junk q timestep u v)) = List.length (q_dst q).
Proof.
  unfold advect; simpl.
  rewrite (fold_left_ext_eq _
             (fun b a => wr b (fst a + snd a * q_w q)
                           (advect_point junk q timestep u v (fst a) (snd a))))
    by (intros b [a1 a2]; reflexivity).
  apply fold_wr_length.
Qed.

Lemma fold_wr2_length {A : Type} (i1 i2 : A -> Z) (L : list A) (b : list Q) :
  List.length (fold_left (fun b a => wr (wr b (i1 a) 0) (i2 a) 0) L b) =
  List.length b.
Proof.
  revert b; induction L as [|c L IH]; intros b; simpl; auto.
  now rewrite IH, !wr_length.
Qed.

(** Two zero writes per loop iteration. *)
Lemma fold_wr2_zero {A : Type} (i1 i2 : A -> Z) (L : list A) (b : list Q) (j : Z) :
  (forall a, In a L -> in_buf b (i1 a) = true /\ in_buf b (i2 a) = true) ->
  ((exists a, In a L /\ (j = i1 a \/ j = i2 a)) \/ rd junk b j = 0) ->
  rd junk (fold_left (fun b a => wr (wr b (i1 a) 0) (i2 a) 0) L b) j = 0.
Proof.
  revert b; induction L as [|c L IH]; intros b Hin Hj; simpl in *.
  - destruct Hj as [[a [[] _]]|Hj]; exact Hj.
  - destruct (Hin c (or_introl eq_refl)) as [H1 H2].
    apply IH.
    + intros a Ha. rewrite !in_buf_wr. auto.
    + assert (Hz : j = i1 c \/ j = i2 c \/ rd junk b j = 0 ->
                   rd junk (wr (wr b (i1 c) 0) (i2 c) 0) j = 0).
      { intros Hc. rewrite rd_wr by (now rewrite in_buf_wr).
        destruct (Z.eqb_spec j (i2 c)); [reflexivity|].
        rewrite rd_wr by exact H1.
        destruct (Z.eqb_spec j (i1 c)); [reflexivity|].
        destruct Hc as [|[|Hc]]; [congruence|congruence|exact Hc]. }
      destruct Hj as [[a [[<-|Ha] Hja]]|Hj].
      * right. apply Hz. tauto.
      * left. eauto.
      * right. apply Hz. tauto.
Qed.

Lemma set_at_fold_src (L : list Z) (f1 g1 f2 g2 : Z -> Z) (q : FluidQuantity) :
  q_src (fold_left (fun q a => set_at (set_at q (f1 a) (g1 a) 0) (f2 a) (g2 a) 0) L q)
  = fold_left (fun b a => wr (wr b (f1 a + g1 a * q_w q) 0) (f2 a + g2 a * q_w q) 0)
      L (q_src q) /\
  q_w (fold_left (fun q a => set_at (set_at q (f1 a) (g1 a) 0) (f2 a) (g2 a) 0) L q)
  = q_w q /\
  q_h (fold_left (fun q a => set_at (set_at q (f1 a) (g1 a) 0) (f2 a) (g2 a) 0) L q)
  = q_h q /\
  q_ox (fold_left (fun q a => set_at (set_at q (f1 a) (g1 a) 0) (f2 a) (g2 a) 0) L q)
  = q_ox q /\
  q_oy (fold_left (fun q a => set_at (set_at q (f1 a) (g1 a) 0) (f2 a) (g2 a) 0) L q)
  = q_oy q /\
  q_dst (fold_left (fun q a => set_at (set_at q (f1 a) (g1 a) 0) (f2 a) (g2 a) 0) L q)
  = q_dst q.
Proof.
  revert q; induction L as [|a L IH]; intros q; simpl; [tauto|].
  destruct (IH (set_at (set_at q (f1 a) (g1 a) 0) (f2 a) (g2 a) 0))
    as (E1 & E2 & E3 & E4 & E5 & E6).
  rewrite E1, E2, E3, E4, E5, E6. simpl. tauto.
Qed.

(** The scatter loop of [applyPressure] keeps the shapes of [u] and [v]. *)
Lemma scatter_shape (w : Z) (scale : Q) (p : list Q) (L : list (Z * Z))
    (u v : FluidQuantity) :
  let '(u', v') :=
    fold_left
      (fun '(u, v) '(x, y) =>
         let pv := rd junk p (x + y * w) in
         let u := upd_at junk u x y (fun a => a - scale * pv) in
         let u := upd_at junk u (x + 1) y (fun a => a + scale * pv) in
         let v := upd_at junk v x y (fun a => a - scale * pv) in
         let v := upd_at junk v x (y + 1) (fun a => a + scale * pv) in
         (u, v)) L (u, v) in
  q_w u' = q_w u /\ q_h u' = q_h u /\ q_ox u' = q_ox u /\ q_oy u' = q_oy u /\
  List.length (q_src u') = List.length (q_src u) /\ q_dst u' = q_dst u /\
  q_w v' = q_w v /\ q_h v' = q_h v /\ q_ox v' = q_ox v /\ q_oy v' = q_oy v /\
  List.length (q_src v') = List.length (q_src v) /\ q_dst v' = q_dst v.
Proof.
  revert u v; induction L as [|[x y] L IH]; intros u v; simpl; [tauto|].
  match goal with
  | |- context [fold_left ?f L (?u1, ?v1)] =>
      specialize (IH u1 v1); destruct (fold_left f L (u1, v1)) as [u' v']
  end.
  unfold upd_at, set_at, with_src in IH; simpl in IH.
  rewrite !wr_length in IH. tauto.
Qed.

(** After [applyPressure], every boundary face of both velocity fields is
    zero, and the fields keep their shapes. *)
Lemma applyPressure_spec (timestep : Q) (st : FluidSolver) :
  solver_wf st -> (0 <= s_w st)%Z -> (0 <= s_h st)%Z ->
  let st' := applyPressure junk timestep st in
  solver_wf st' /\ s_w st' = s_w st /\ s_h st' = s_h st /\
  s_p st' = s_p st /\ s_iteration_type st' = s_iteration_type st /\
  (forall y, (0 <= y < s_h st)%Z ->
     at_ junk (s_u st') 0 y = 0 /\ at_ junk (s_u st') (s_w st) y = 0) /\
  (forall x, (0 <= x < s_w st)%Z ->
     at_ junk (s_v st') x 0 = 0 /\ at_ junk (s_v st') x (s_h st) = 0).
Proof.
  intros Hwf Hw0 Hh0 st'.
  destruct Hwf as (Hd & (Huw & Huh & Huox & Huoy & Husrc & Hudst) &
                   (Hvw & Hvh & Hvox & Hvoy & Hvsrc & Hvdst) & Hr & Hp & Hp2).
  unfold st', applyPressure; cbv zeta.
  pose proof (scatter_shape (s_w st) (timestep / (s_density st * s_hx st)) (s_p st)
                (cells (s_w st) (s_h st)) (s_u st) (s_v st)) as Hsh.
  destruct (fold_left _ (cells (s_w st) (s_h st)) (s_u st, s_v st)) as [u1 v1].
  destruct Hsh as (U1 & U2 & U3 & U4 & U5 & U6 & V1 & V2 & V3 & V4 & V5 & V6).
  destruct (set_at_fold_src (zrange 0 (s_h st)) (fun _ => s_w st) (fun y => y)
              (fun _ => 0%Z) (fun y => y) u1) as (A1 & A2 & A3 & A4 & A5 & A6).
  destruct (set_at_fold_src (zrange 0 (s_w st)) (fun x => x) (fun _ => s_h st)
              (fun x => x) (fun _ => 0%Z) v1) as (B1 & B2 & B3 & B4 & B5 & B6).
  unfold with_fields, solver_wf, quantity_wf, at_; simpl.
  rewrite A1, A2, A3, A4, A5, A6, B1, B2, B3, B4, B5, B6.
  rewrite !fold_wr2_length.
  destruct Hd as (Hd1 & Hd2 & Hd3 & Hd4 & Hd5 & Hd6).
  rewrite U1, Huw in *. rewrite V1, Hvw in *.
  repeat split; try assumption; try congruence;
    apply fold_wr2_zero;
    try (intros a Ha; apply in_zrange in Ha; rewrite !in_buf_spec;
         rewrite ?U5, ?V5, ?Husrc, ?Hvsrc; nia);
    left; eexists; (split; [apply in_zrange; eassumption|]); lia.
Qed.

End Step.

(** *** The relaxation loop *)

Section RelaxSpec.
Variable St : Type.
Variable sweep : St -> St * Q.
Variable limit : Z.

Lemma sweep_iter_S (n : nat) (s : St) :
  sweep_iter sweep (S n) s = sweep_iter sweep n (fst (sweep s)).
Proof. unfold sweep_iter. apply Nat.iter_succ_r. Qed.

(** [relax_from] stops after the first sweep whose [maxDelta] is below
    the tolerance, or when the fuel runs out. *)
Lemma relax_from_spec (fuel : nat) (iter : Z) (s : St) (md : Q) :
  let '(s', report) := relax_from St sweep limit fuel iter s md in
  (exists n, (n < fuel)%nat /\
     (forall i, (i < n)%nat -> tolerance <= sweep_delta sweep i s) /\
     sweep_delta sweep n s < tolerance /\
     s' = sweep_iter sweep (S n) s /\
     report = Converged (iter + Z.of_nat n) (sweep_delta sweep n s)) \/
  ((forall i, (i < fuel)%nat -> tolerance <= sweep_delta sweep i s) /\
   s' = sweep_iter sweep fuel s /\
   report = Exceeded limit (match fuel with
                            | O => md
                            | S k => sweep_delta sweep k s
                            end)).
Proof.
  revert iter s md; induction fuel as [|fuel IH]; intros iter s md;
    cbn [relax_from].
  - right. split; [intros; lia | split; reflexivity].
  - destruct (sweep s) as [s1 d] eqn:Es.
    assert (E0 : sweep_delta sweep 0 s = d) by (unfold sweep_delta; simpl; now rewrite Es).
    assert (Ei : forall i, sweep_delta sweep (S i) s = sweep_delta sweep i s1).
    { intros i. unfold sweep_delta. now rewrite sweep_iter_S, Es. }
    assert (Ej : forall i, sweep_iter sweep (S i) s = sweep_iter sweep i s1).
    { intros i. now rewrite sweep_iter_S, Es. }
    destruct (Qltb d tolerance) eqn:Ed.
    + apply Qltb_iff in Ed. left. exists O.
      split; [lia|]. split; [intros; lia|].
      rewrite E0. split; [exact Ed|].
      split; [rewrite Ej; reflexivity|]. rewrite Z.add_0_r. reflexivity.
    + assert (Hd : tolerance <= d).
      { apply Qnot_lt_le. intros Hlt. apply Qltb_iff in Hlt. congruence. }
      specialize (IH (iter + 1)%Z s1 d).
      destruct (relax_from St sweep limit fuel (iter + 1) s1 d) as [s' report].
      destruct IH as [(n & Hn & Hbefore & Hat & Hs & Hr)|(Hall & Hs & Hr)].
      * left. exists (S n). split; [lia|]. split.
        { intros [|i] Hi; [now rewrite E0 | rewrite Ei; apply Hbefore; lia]. }
        rewrite Ei, Ej. split; [exact Hat|]. split; [exact Hs|].
        rewrite Hr. f_equal. lia.
      * right. split.
        { intros [|i] Hi; [now rewrite E0 | rewrite Ei; apply Hall; lia]. }
        split; [rewrite Ej; exact Hs|].
        rewrite Hr. destruct fuel as [|k]; [now rewrite E0 | now rewrite Ei].
Qed.

Lemma relax_from_preserves (P : St -> Prop) (fuel : nat) (iter : Z) (s : St)
    (md : Q) :
  (forall s, P s -> P (fst (sweep s))) -> P s ->
  P (fst (relax_from St sweep limit fuel iter s md)).
Proof.
  intros Hs. revert iter s md; induction fuel as [|fuel IH]; intros iter s md Hp;
    simpl; auto.
  destruct (sweep s) as [s1 d] eqn:Es.
  assert (P s1).
  { change s1 with (fst (s1, d)). rewrite <- Es. auto. }
  destruct (Qltb d tolerance); simpl; auto.
Qed.

End RelaxSpec.

(** *** The pressure solve and the step *)

Section SolverFacts.
Variable junk : Z -> Q.

Lemma keeps_shape_trans (a b c : FluidSolver) :
  keeps_shape a b -> keeps_shape b c -> keeps_shape a c.
Proof. unfold keeps_shape. intuition congruence. Qed.

Lemma fold_fst_length {A : Type} (f : list Q * Q -> A -> list Q * Q)
    (L : list A) (acc : list Q * Q) :
  (forall acc a, List.length (fst (f acc a)) = List.length (fst acc)) ->
  List.length (fst (fold_left f L acc)) = List.length (fst acc).
Proof.
  intros Hf. revert acc; induction L as [|a L IH]; intros acc; simpl; auto.
  now rewrite IH, Hf.
Qed.

Lemma memcpy_length (dst src : list Q) (n : Z) :
  List.length (memcpy junk dst src n) = List.length dst.
Proof.
  unfold memcpy.
  exact (fold_wr_length (fun i => i) (rd junk src) (zrange 0 n) dst).
Qed.

Lemma jacobi_sweep_shape (scale : Q) (st : FluidSolver) :
  keeps_shape st (fst (jacobi_sweep junk scale st)).
Proof.
  unfold jacobi_sweep.
  match goal with
  | |- context [fold_left ?f ?L ?acc] =>
      pose proof (fold_fst_length f L acc) as Hl;
      destruct (fold_left f L acc) as [p2 md]
  end.
  unfold keeps_shape; cbn [fst snd with_p s_d s_u s_v s_w s_h s_hx s_density
                                s_r s_p s_p2 s_iteration_type].
  rewrite memcpy_length. repeat split; auto.
  simpl in Hl; apply Hl; intros [p m] [x y]; simpl; apply wr_length.
Qed.

Lemma gs_sweep_shape (scale : Q) (st : FluidSolver) :
  keeps_shape st (fst (gs_sweep junk scale st)).
Proof.
  unfold gs_sweep.
  match goal with
  | |- context [fold_left ?f ?L ?acc] =>
      pose proof (fold_fst_length f L acc) as Hl;
      destruct (fold_left f L acc) as [p md]
  end.
  simpl in *. unfold keeps_shape; simpl. repeat split; auto.
  apply Hl. intros [p' m] [x y]; simpl. apply wr_length.
Qed.

Lemma pressure_solve_shape (timestep : Q) (st : FluidSolver) :
  keeps_shape st (fst (pressure_solve junk timestep st)).
Proof.
  unfold pressure_solve, project_jacobi, project, relax.
  destruct (s_iteration_type st);
    apply relax_from_preserves;
    try (intros s Hs; eapply keeps_shape_trans;
         [exact Hs | apply gs_sweep_shape || apply jacobi_sweep_shape]);
    unfold keeps_shape; tauto.
Qed.

Lemma buildRhs_shape (st : FluidSolver) :
  let st' := buildRhs junk st in
  s_d st' = s_d st /\ s_u st' = s_u st /\ s_v st' = s_v st /\
  s_w st' = s_w st /\ s_h st' = s_h st /\ s_hx st' = s_hx st /\
  s_density st' = s_density st /\ s_p st' = s_p st /\ s_p2 st' = s_p2 st /\
  s_iteration_type st' = s_iteration_type st /\
  List.length (s_r st') = List.length (s_r st).
Proof.
  unfold buildRhs; simpl. repeat split.
  etransitivity; [|apply (fold_wr_length (fun a : Z * Z => (fst a + snd a * s_w st)%Z)
     (fun a : Z * Z => - (1 / s_hx st) *
        (at_ junk (s_u st) (fst a + 1)%Z (snd a) - at_ junk (s_u st) (fst a) (snd a) +
         at_ junk (s_v st) (fst a) (snd a + 1)%Z - at_ junk (s_v st) (fst a) (snd a))))].
  f_equal. apply fold_left_ext_eq. intros b [x y]. reflexivity.
Qed.

(** [update] is the pressure solve, then [applyPressure] on the pressure
    it returns, then the advection of the three fields. *)
Lemma update_unfold (timestep : Q) (st : FluidSolver) :
  update junk timestep st =
  (advect_fields junk timestep
     (applyPressure junk timestep (fst (pressure_solve junk timestep (buildRhs junk st)))),
   snd (pressure_solve junk timestep (buildRhs junk st))).
Proof.
  unfold update, pressure_solve.
  destruct (s_iteration_type (buildRhs junk st)).
  - destruct (project junk 600 timestep (buildRhs junk st)); reflexivity.
  - destruct (project_jacobi junk 600 timestep (buildRhs junk st)); reflexivity.
Qed.

Lemma solve_wf (timestep : Q) (st : FluidSolver) :
  solver_wf st ->
  let st' := fst (pressure_solve junk timestep (buildRhs junk st)) in
  solver_wf st' /\ s_w st' = s_w st /\ s_h st' = s_h st.
Proof.
  intros Hwf st'.
  destruct (buildRhs_shape st) as (B1 & B2 & B3 & B4 & B5 & B6 & B7 & B8 & B9 & B10 & B11).
  destruct (pressure_solve_shape timestep (buildRhs junk st))
    as (P1 & P2 & P3 & P4 & P5 & P6 & P7 & P8 & P9 & P10 & P11).
  fold st' in P1, P2, P3, P4, P5, P6, P7, P8, P9, P10, P11.
  unfold solver_wf in *.
  rewrite P1, P2, P3, P4, P5, P8, P10, P11, B1, B2, B3, B4, B5, B8, B9, B11.
  tauto.
Qed.

(** The new [u] of a step at face [(ix, iy)]: the bicubic sample of the
    projected [u] at the end of the traced-back path. *)
Lemma update_u_at (timestep : Q) (st : FluidSolver) (ix iy : Z) :
  solver_wf st -> (0 <= ix <= s_w st)%Z -> (0 <= iy < s_h st)%Z ->
  let stp := applyPressure junk timestep
               (fst (pressure_solve junk timestep (buildRhs junk st))) in
  let '(x, y) := rungeKutta3 junk (s_u stp) (inject_Z ix + q_ox (s_u stp))
                   (inject_Z iy + q_oy (s_u stp)) timestep (s_u stp) (s_v stp) in
  at_ junk (s_u (fst (update junk timestep st))) ix iy = cerp junk (s_u stp) x y.
Proof.
  intros Hwf Hx Hy stp.
  destruct (solve_wf timestep st Hwf) as (Hwf2 & Hw2 & Hh2).
  destruct (applyPressure_spec junk timestep
              (fst (pressure_solve junk timestep (buildRhs junk st)))
              Hwf2 ltac:(lia) ltac:(lia)) as (Hwfp & Hwp & Hhp & _).
  fold stp in Hwfp, Hwp, Hhp.
  destruct Hwfp as (_ & (Uw & Uh & _ & _ & _ & Udst) & _).
  rewrite update_unfold. fold stp.
  unfold advect_fields, with_fields, flip, at_; cbn [fst s_u q_src q_w].
  rewrite advect_w, advect_dst_at by (rewrite ?Udst, ?Uw, ?Uh; lia).
  rewrite advect_point_eq.
  now destruct (rungeKutta3 _ _ _ _ _ _ _).
Qed.

(** The trace of [rungeKutta3] reads only the [_src] buffers of the
    velocities, which [advect] does not change. *)
Lemma rungeKutta3_advected_u (q : FluidQuantity) (x y timestep : Q)
    (u a b v : FluidQuantity) :
  rungeKutta3 junk q x y timestep (advect junk u timestep a b) v =
  rungeKutta3 junk q x y timestep u v.
Proof.
  unfold advect, with_dst, rungeKutta3, lerp, at_.
  cbn [q_src q_w q_h q_ox q_oy]. reflexivity.
Qed.

Lemma update_v_at_trace (timestep : Q) (st : FluidSolver) (ix iy : Z) :
  solver_wf st -> (0 <= ix < s_w st)%Z -> (0 <= iy <= s_h st)%Z ->
  let stp := applyPressure junk timestep
               (fst (pressure_solve junk timestep (buildRhs junk st))) in
  let '(x, y) := rungeKutta3 junk (s_v stp) (inject_Z ix + q_ox (s_v stp))
                   (inject_Z iy + q_oy (s_v stp)) timestep (s_u stp) (s_v stp) in
  at_ junk (s_v (fst (update junk timestep st))) ix iy = cerp junk (s_v stp) x y.
Proof.
  intros Hwf Hx Hy stp.
  destruct (solve_wf timestep st Hwf) as (Hwf2 & Hw2 & Hh2).
  destruct (applyPressure_spec junk timestep
              (fst (pressure_solve junk timestep (buildRhs junk st)))
              Hwf2 ltac:(lia) ltac:(lia)) as (Hwfp & Hwp & Hhp & _).
  fold stp in Hwfp, Hwp, Hhp.
  destruct Hwfp as (_ & _ & (Vw & Vh & _ & _ & _ & Vdst) & _).
  rewrite update_unfold. fold stp.
  unfold advect_fields, with_fields, flip, at_; cbn [fst s_v q_src q_w].
  rewrite advect_w, advect_dst_at by (rewrite ?Vdst, ?Vw, ?Vh; lia).
  rewrite advect_point_eq, rungeKutta3_advected_u.
  now destruct (rungeKutta3 _ _ _ _ _ _ _).
Qed.

(** Neither [applyPressure] nor the advection touches [_p]: the pressure
    after a step is the one its solve left. *)
Lemma update_keeps_p (timestep : Q) (st : FluidSolver) :
  s_p (fst (update junk timestep st)) =
  s_p (fst (pressure_solve junk timestep (buildRhs junk st))).
Proof.
  rewrite update_unfold. cbn [fst]. unfold advect_fields, with_fields; cbn [s_p].
  unfold applyPressure; cbv zeta. destruct (fold_left _ _ _). reflexivity.
Qed.

End SolverFacts.

(** *** The boundary faces across a step *)

Lemma step_near_faces (junk : Z -> Q) (timestep : Q) (st : FluidSolver) :
  solver_wf st -> (2 <= s_w st)%Z -> (2 <= s_h st)%Z ->
  let st' := fst (update junk timestep st) in
  (forall y, (0 <= y < s_h st)%Z -> at_ junk (s_u st') 0 y == 0) /\
  (forall x, (0 <= x < s_w st)%Z -> at_ junk (s_v st') x 0 == 0).
Proof.
  intros Hwf Hw Hh st'. unfold st'. rewrite update_unfold. simpl fst.
  destruct (solve_wf junk timestep st Hwf) as (Hwf2 & Hw2 & Hh2).
  set (st2 := fst (pressure_solve junk timestep (buildRhs junk st))) in *.
  destruct (applyPressure_spec junk timestep st2 Hwf2 ltac:(lia) ltac:(lia))
    as (Hwfp & Hwp & Hhp & _ & _ & Hu0 & Hv0).
  set (stp := applyPressure junk timestep st2) in *.
  clearbody stp.
  destruct Hwfp as (_ & (Uw & Uh & Uox & Uoy & Usrc & Udst) &
                    (Vw & Vh & Vox & Voy & Vsrc & Vdst) & _).
  rewrite Hw2 in Hwp, Hv0. rewrite Hh2 in Hhp, Hu0.
  unfold advect_fields, with_fields, flip, at_; cbn [s_u s_v q_src q_w].
  split.
  - intros y Hy. change (q_w (advect junk (s_u stp) timestep (s_u stp) (s_v stp)))
      with (q_w (s_u stp)).
    rewrite advect_dst_at by (rewrite ?Udst, ?Uw, ?Uh; lia).
    unfold advect_point.
    destruct (rungeKutta3 junk (s_u stp) (inject_Z 0 + q_ox (s_u stp))
                (inject_Z y + q_oy (s_u stp)) timestep (s_u stp) (s_v stp))
      as [x' y'] eqn:E.
    assert (Hcol : forall k, (0 <= k < q_h (s_u stp))%Z -> at_ junk (s_u stp) 0 k = 0)
      by (intros k Hk; apply (Hu0 k); lia).
    apply cerp_col0; [exact Uox | lia | lia | exact Hcol |].
    change x' with (fst (x', y')). rewrite <- E.
    apply rungeKutta3_x_zero.
    + intros a b Ha. apply lerp_col0; [exact Uox | lia | lia | exact Hcol | exact Ha].
    + rewrite Uox. reflexivity.
  - intros x Hx.
    set (u' := advect junk (s_u stp) timestep (s_u stp) (s_v stp)).
    change (q_w (advect junk (s_v stp) timestep u' (s_v stp)))
      with (q_w (s_v stp)).
    rewrite advect_dst_at by (rewrite ?Vdst, ?Vw, ?Vh; lia).
    unfold advect_point.
    destruct (rungeKutta3 junk (s_v stp) (inject_Z x + q_ox (s_v stp))
                (inject_Z 0 + q_oy (s_v stp)) timestep u' (s_v stp))
      as [x' y'] eqn:E.
    assert (Hrow : forall k, (0 <= k < q_w (s_v stp))%Z -> at_ junk (s_v stp) k 0 = 0)
      by (intros k Hk; apply (Hv0 k); lia).
    apply cerp_row0; [exact Voy | lia | lia | exact Hrow |].
    change y' with (snd (x', y')). rewrite <- E.
    apply rungeKutta3_y_zero.
    + intros a b Hb. apply lerp_row0; [exact Voy | lia | lia | exact Hrow | exact Hb].
    + rewrite Voy. reflexivity.
Qed.

(** *** Bounds of the bicubic sample *)

Lemma Qmin4_lb (m a b c d : Q) :
  m <= a -> m <= b -> m <= c -> m <= d -> m <= Qmin a (Qmin b (Qmin c d)).
Proof. intros; repeat apply Q.min_glb; assumption. Qed.

Lemma Qmax4_ub (M a b c d : Q) :
  a <= M -> b <= M -> c <= M -> d <= M -> Qmax a (Qmax b (Qmax c d)) <= M.
Proof. intros; repeat apply Q.max_lub; assumption. Qed.

Lemma cerp1_within (m M a b c d x : Q) :
  m <= a <= M -> m <= b <= M -> m <= c <= M -> m <= d <= M ->
  m <= cerp1 a b c d x <= M.
Proof.
  intros [] [] [] []. destruct (cerp1_bounds a b c d x) as [Hlo Hhi]. split.
  - eapply Qle_trans; [|exact Hlo]. now apply Qmin4_lb.
  - eapply Qle_trans; [exact Hhi|]. now apply Qmax4_ub.
Qed.

Lemma to_int_clamp_single (x o : Q) :
  to_int (Qmin (Qmax (x - o) 0) (inject_Z 1 - (1001#1000))) = 0%Z.
Proof. rewrite (to_int_Proper _ _ (clamp_single x o)). reflexivity. Qed.

Section Bounds.
Variable junk : Z -> Q.

(** The bicubic sample lies between any bounds of the field's samples.  On a
    field one sample wide (or tall) the stencil reads past its row (or
    column), but the weights of [cerp1] at [-0.001] cancel that read. *)
Lemma cerp_within (q : FluidQuantity) (x y m M : Q) :
  (1 <= q_w q)%Z -> (1 <= q_h q)%Z ->
  (forall i j, (0 <= i < q_w q)%Z -> (0 <= j < q_h q)%Z -> m <= at_ junk q i j <= M) ->
  m <= cerp junk q x y <= M.
Proof.
  intros Hw Hh Hin. unfold cerp.
  pose proof (to_int_clamp_single x (q_ox q)) as Sx.
  pose proof (to_int_clamp_single y (q_oy q)) as Sy.
  pose proof (clamp_single x (q_ox q)) as Cx.
  pose proof (clamp_single y (q_oy q)) as Cy.
  set (cx := Qmin (Qmax (x - q_ox q) 0) (inject_Z (q_w q) - (1001#1000))) in *.
  set (cy := Qmin (Qmax (y - q_oy q) 0) (inject_Z (q_h q) - (1001#1000))) in *.
  cbv zeta.
  set (ix := to_int cx). set (iy := to_int cy).
  set (fx := cx - inject_Z ix). set (fy := cy - inject_Z iy).
  assert (Hrow : forall j, (0 <= j < q_h q)%Z ->
            m <= cerp1 (at_ junk q (Z.max (ix - 1) 0) j) (at_ junk q ix j)
                       (at_ junk q (ix + 1) j) (at_ junk q (Z.min (ix + 2) (q_w q - 1)) j)
                       fx <= M).
  { intros j Hj. destruct (Z.eq_dec (q_w q) 1) as [E1|E1].
    - assert (Hix : ix = 0%Z) by (unfold ix, cx; rewrite E1; exact Sx).
      assert (Hfx : fx == -(1#1000)).
      { unfold fx. rewrite Hix. unfold cx. rewrite E1, Cx. reflexivity. }
      rewrite (cerp1_Proper _ _ (Qeq_refl _) _ _ (Qeq_refl _) _ _ (Qeq_refl _)
                 _ _ (Qeq_refl _) _ _ Hfx).
      rewrite Hix, E1.
      change (Z.max (0 - 1) 0) with 0%Z. change (Z.min (0 + 2) (1 - 1)) with 0%Z.
      rewrite cerp1_single by reflexivity. apply Hin; lia.
    - pose proof (clamp_index x (q_ox q) (q_w q) ltac:(lia)) as Hi.
      cbv zeta in Hi. fold cx ix in Hi.
      apply cerp1_within; apply Hin; lia. }
  destruct (Z.eq_dec (q_h q) 1) as [E1|E1].
  - assert (Hiy : iy = 0%Z) by (unfold iy, cy; rewrite E1; exact Sy).
    assert (Hfy : fy == -(1#1000)).
    { unfold fy. rewrite Hiy. unfold cy. rewrite E1, Cy. reflexivity. }
    rewrite (cerp1_Proper _ _ (Qeq_refl _) _ _ (Qeq_refl _) _ _ (Qeq_refl _)
               _ _ (Qeq_refl _) _ _ Hfy).
    pose proof (Hrow 0%Z ltac:(lia)) as R0.
    rewrite Hiy, E1.
    change (Z.max (0 - 1) 0) with 0%Z. change (Z.min (0 + 2) (1 - 1)) with 0%Z.
    rewrite cerp1_single by reflexivity. exact R0.
  - pose proof (clamp_index y (q_oy q) (q_h q) ltac:(lia)) as Hi.
    cbv zeta in Hi. fold cy iy in Hi.
    apply cerp1_within; apply Hrow; lia.
Qed.

End Bounds.

(** Case analysis on every allocation of a constructor. *)
Ltac split_allocs :=
  repeat (match goal with
          | |- context [if ?c then _ else _] => destruct c
          end; cbv beta iota).

(** ** The claims *)

(** C1: the backward trace of [rungeKutta3] converts the first two velocity
    samples to grid units but not the third: for a uniform speed 1 on a grid
    of cell size 1/2 and a timestep 1/10, the traced [x] of the source is
    [1 - (1/10)(14/9)], where dividing all three samples by the cell size
    (as the specification describes) gives [1 - (1/10) 2]. *)
Lemma rungeKutta3_last_sample_unscaled :
  fst (rungeKutta3 no_junk uniform_u 1 (1#2) (1#10) uniform_u still_v)
    == 1 - (1#10)*(14#9) /\
  fst (rungeKutta3_spec no_junk uniform_u 1 (1#2) (1#10) uniform_u still_v)
    == 1 - (1#10)*2.
Proof. split; vm_compute; reflexivity. Qed.

(** C4: [addInflow] bounds its column loop by the height: on the [v] field
    of a 2x2 solver (2 columns, 3 rows) the rectangle [(0,0)-(2,2)] visits
    cell [(2, 2)], whose index [2 + 2*2 = 6] is past the 6-value buffer, and
    cell [(2, 0)], whose column is not below the width. *)
Lemma addInflow_outside_buffer :
  In (2, 2)%Z (addInflow_cells inflow_v 0 0 2 2) /\
  in_buf (q_src inflow_v) (2 + 2 * q_w inflow_v) = false /\
  In (2, 0)%Z (addInflow_cells inflow_v 0 0 2 2) /\
  (q_w inflow_v <= 2)%Z.
Proof.
  unfold addInflow_cells. rewrite !in_grid, !in_zrange. vm_compute.
  repeat split; discriminate.
Qed.

(** C5: the one-dimensional cubic interpolation lies within the minimum and
    the maximum of its four samples, for every four samples and every
    parameter. *)
Lemma cerp1_clamped (a b c d x : Q) :
  Qmin a (Qmin b (Qmin c d)) <= cerp1 a b c d x /\
  cerp1 a b c d x <= Qmax a (Qmax b (Qmax c d)).
Proof. apply cerp1_bounds. Qed.

(** C6: after [addInflow] every value of the buffer is either the one it
    held before or one of strictly larger magnitude; so no magnitude
    decreases. *)
Lemma addInflow_never_decreases (junk : Z -> Q) (sqrt : Q -> Q) (q : FluidQuantity)
    (x0 y0 x1 y1 v : Q) (j : Z) :
  let q' := addInflow junk sqrt q x0 y0 x1 y1 v in
  (rd junk (q_src q') j = rd junk (q_src q) j \/
   Qabs (rd junk (q_src q) j) < Qabs (rd junk (q_src q') j)) /\
  Qabs (rd junk (q_src q) j) <= Qabs (rd junk (q_src q') j).
Proof.
  intros q'.
  assert (H : rd junk (q_src q') j = rd junk (q_src q) j \/
              Qabs (rd junk (q_src q) j) < Qabs (rd junk (q_src q') j)).
  { unfold q', addInflow, with_src; cbn [q_src].
    apply fold_magnitude. intros src [x y]. cbv beta iota zeta.
    set (i := (x + y * q_w q)%Z).
    destruct (Qltb _ _) eqn:E; [|left; reflexivity].
    destruct (Z.eq_dec j i) as [->|Hne].
    - destruct (in_buf src i) eqn:Hb.
      + right. rewrite rd_wr_same by exact Hb. now apply Qltb_iff.
      + left. unfold wr. now rewrite Hb.
    - left. now apply rd_wr_other. }
  split; [exact H|].
  destruct H as [H|H]; [rewrite H; apply Qle_refl | now apply Qlt_le_weak].
Qed.

(** C7 (counterexample): at the last column the clamp to [w - 1.001] makes
    the bilinear sample at cell [(1, 0)] of [corner_field] a blend,
    [0.999], not the stored [1]. *)
Lemma lerp_grid_point_last_column :
  ~ (forall (junk : Z -> Q) (q : FluidQuantity) (ix iy : Z),
       (0 <= ix < q_w q)%Z -> (0 <= iy < q_h q)%Z ->
       lerp junk q (inject_Z ix + q_ox q) (inject_Z iy + q_oy q) == at_ junk q ix iy).
Proof.
  assert (Hne : ~ (lerp no_junk corner_field (inject_Z 1 + q_ox corner_field)
                     (inject_Z 0 + q_oy corner_field) == at_ no_junk corner_field 1 0))
    by (vm_compute; discriminate).
  assert (Hx : (0 <= 1 < q_w corner_field)%Z) by (cbn; lia).
  assert (Hy : (0 <= 0 < q_h corner_field)%Z) by (cbn; lia).
  intros H. exact (Hne (H no_junk corner_field 1%Z 0%Z Hx Hy)).
Qed.

(** C7 (amended): at every grid point with [0 <= ix <= w - 2] and
    [0 <= iy <= h - 2] the bilinear sample at the point's world position is
    the stored value. *)
Lemma lerp_exact_at_interior_points (junk : Z -> Q) (q : FluidQuantity) (ix iy : Z) :
  (0 <= ix <= q_w q - 2)%Z -> (0 <= iy <= q_h q - 2)%Z ->
  lerp junk q (inject_Z ix + q_ox q) (inject_Z iy + q_oy q) == at_ junk q ix iy.
Proof. apply lerp_grid_point. Qed.

Lemma lerp_exact_at_interior_points_witness :
  (0 <= 0 <= q_w corner_field - 2)%Z /\ (0 <= 0 <= q_h corner_field - 2)%Z /\
  lerp no_junk corner_field (inject_Z 0 + q_ox corner_field)
    (inject_Z 0 + q_oy corner_field) == at_ no_junk corner_field 0 0.
Proof.
  split; [cbn; lia|]. split; [cbn; lia|].
  apply (lerp_exact_at_interior_points no_junk corner_field 0%Z 0%Z); cbn; lia.
Defined.

(** C8 (counterexample): the constructor does not check its dimensions; a
    solver of width 0 is built when the allocator has the memory. *)
Lemma FluidSolver_new_accepts_zero_width :
  ~ (forall (ok : nat -> Z -> bool) (w h : Z) (density : Q),
       (w <= 0 \/ h <= 0)%Z -> FluidSolver_new ok w h density = None).
Proof.
  assert (Hne : FluidSolver_new (fun _ _ => true) 0 4 1 <> None)
    by (vm_compute; discriminate).
  intros H. apply Hne. apply H. lia.
Qed.

(** C8 (amended): construction fails exactly when one of its twelve
    allocations throws: a buffer count [w*h], [(w+1)*h] or [w*(h+1)],
    computed in [int], is negative, or the allocator has no memory for it.
    Every other pair of dimensions, zero and negative ones included, gives
    a solver. *)
Lemma FluidSolver_new_fails_iff (ok : nat -> Z -> bool) (w h : Z) (density : Q) :
  FluidSolver_new ok w h density = None <->
  existsb (alloc_throws ok) (FluidSolver_allocs w h) = true.
Proof.
  unfold FluidSolver_new, new_FluidQuantity, FluidQuantity_new, alloc,
    FluidSolver_allocs, alloc_throws; cbv zeta.
  cbn [existsb fst snd orb negb].
  change (1 <? 0)%Z with false. cbv beta iota.
  split_allocs; split; intros Hc; first [reflexivity | discriminate Hc].
Qed.

(** C2 (amended): the projection of every step leaves all four boundary
    faces of [u] and [v] at 0, on any grid; on a grid of at least 2x2 cells
    the advection that ends the step keeps the faces [u] at [x = 0] and [v]
    at [y = 0] at 0. *)
Lemma update_boundary_faces (junk : Z -> Q) (timestep : Q) (st : FluidSolver) :
  solver_wf st -> (0 <= s_w st)%Z -> (0 <= s_h st)%Z ->
  let stp := applyPressure junk timestep
               (fst (pressure_solve junk timestep (buildRhs junk st))) in
  let st' := fst (update junk timestep st) in
  (forall y, (0 <= y < s_h st)%Z ->
     at_ junk (s_u stp) 0 y = 0 /\ at_ junk (s_u stp) (s_w st) y = 0) /\
  (forall x, (0 <= x < s_w st)%Z ->
     at_ junk (s_v stp) x 0 = 0 /\ at_ junk (s_v stp) x (s_h st) = 0) /\
  ((2 <= s_w st)%Z -> (2 <= s_h st)%Z ->
   (forall y, (0 <= y < s_h st)%Z -> at_ junk (s_u st') 0 y == 0) /\
   (forall x, (0 <= x < s_w st)%Z -> at_ junk (s_v st') x 0 == 0)).
Proof.
  intros Hwf Hw Hh stp st'.
  destruct (solve_wf junk timestep st Hwf) as (Hwf2 & Hw2 & Hh2).
  destruct (applyPressure_spec junk timestep
              (fst (pressure_solve junk timestep (buildRhs junk st)))
              Hwf2 ltac:(lia) ltac:(lia)) as (_ & _ & _ & _ & _ & Hu & Hv).
  rewrite Hw2, Hh2 in Hu, Hv.
  refine (conj Hu (conj Hv _)).
  intros Hw' Hh'. exact (step_near_faces junk timestep st Hwf Hw' Hh').
Qed.

Lemma update_boundary_faces_witness :
  solver_wf circ_state /\ (0 <= s_w circ_state)%Z /\ (0 <= s_h circ_state)%Z /\
  let stp := applyPressure no_junk (1#100)
               (fst (pressure_solve no_junk (1#100) (buildRhs no_junk circ_state))) in
  let st' := fst (update no_junk (1#100) circ_state) in
  (forall y, (0 <= y < s_h circ_state)%Z ->
     at_ no_junk (s_u stp) 0 y = 0 /\ at_ no_junk (s_u stp) (s_w circ_state) y = 0) /\
  (forall x, (0 <= x < s_w circ_state)%Z ->
     at_ no_junk (s_v stp) x 0 = 0 /\ at_ no_junk (s_v stp) x (s_h circ_state) = 0) /\
  ((2 <= s_w circ_state)%Z -> (2 <= s_h circ_state)%Z ->
   (forall y, (0 <= y < s_h circ_state)%Z -> at_ no_junk (s_u st') 0 y == 0) /\
   (forall x, (0 <= x < s_w circ_state)%Z -> at_ no_junk (s_v st') x 0 == 0)).
Proof.
  assert (Hwf : solver_wf circ_state) by (vm_compute; repeat split; reflexivity).
  assert (Hw : (0 <= s_w circ_state)%Z) by (cbn; lia).
  assert (Hh : (0 <= s_h circ_state)%Z) by (cbn; lia).
  exact (conj Hwf (conj Hw (conj Hh
           (update_boundary_faces no_junk (1#100) circ_state Hwf Hw Hh)))).
Defined.

(** C2 (counterexample): the faces at [x = width] and [y = height] are not
    kept by the advection.  On [circ_state], a divergence-free 2x2 flow
    whose boundary faces are all 0, one step of [1/100] leaves [u] at face
    [(2, 0)] equal to [1003997/2000000000] (about [5e-4]) and [v] at face
    [(0, 2)] equal to about [-5e-4]. *)
Lemma update_far_face_nonzero :
  ~ (forall (junk : Z -> Q) (timestep : Q) (st : FluidSolver),
       solver_wf st ->
       let st' := fst (update junk timestep st) in
       forall y, (0 <= y < s_h st)%Z -> at_ junk (s_u st') (s_w st) y == 0) /\
  ~ (forall (junk : Z -> Q) (timestep : Q) (st : FluidSolver),
       solver_wf st ->
       let st' := fst (update junk timestep st) in
       forall x, (0 <= x < s_w st)%Z -> at_ junk (s_v st') x (s_h st) == 0).
Proof.
  assert (Hwf : solver_wf circ_state) by (vm_compute; repeat split; reflexivity).
  set (stp := applyPressure no_junk (1#100)
                (fst (pressure_solve no_junk (1#100) (buildRhs no_junk circ_state)))).
  split.
  - assert (Hy : (0 <= 0 < s_h circ_state)%Z) by (cbn; lia).
    assert (Hx : (0 <= 2 <= s_w circ_state)%Z) by (cbn; lia).
    assert (Hne : ~ (1003997 # 2000000000 == 0)) by (vm_compute; discriminate).
    intros H.
    pose proof (H no_junk (1#100) circ_state Hwf 0%Z Hy) as H20.
    change (s_w circ_state) with 2%Z in H20.
    pose proof (update_u_at no_junk (1#100) circ_state 2 0 Hwf Hx Hy) as E.
    cbv zeta in E. fold stp in E.
    destruct (rungeKutta3 no_junk (s_u stp) (inject_Z 2 + q_ox (s_u stp))
                (inject_Z 0 + q_oy (s_u stp)) (1#100) (s_u stp) (s_v stp)) as [x y] eqn:Erk.
    assert (Ex : x == 899993 # 450000).
    { change x with (fst (x, y)). rewrite <- Erk. vm_compute. reflexivity. }
    assert (Ey : y == 553841827545503 # 1125000000000000).
    { change y with (snd (x, y)). rewrite <- Erk. vm_compute. reflexivity. }
    rewrite E, Ex, Ey in H20.
    assert (Hv : cerp no_junk (s_u stp) (899993 # 450000) (553841827545503 # 1125000000000000)
                 == 1003997 # 2000000000) by (vm_compute; reflexivity).
    apply Hne. rewrite <- Hv. exact H20.
  - assert (Hx : (0 <= 0 < s_w circ_state)%Z) by (cbn; lia).
    assert (Hy : (0 <= 2 <= s_h circ_state)%Z) by (cbn; lia).
    intros H.
    pose proof (H no_junk (1#100) circ_state Hwf 0%Z Hx) as H02.
    change (s_h circ_state) with 2%Z in H02.
    pose proof (update_v_at_trace no_junk (1#100) circ_state 0 2 Hwf Hx Hy) as E.
    cbv zeta in E. fold stp in E.
    destruct (rungeKutta3 no_junk (s_v stp) (inject_Z 0 + q_ox (s_v stp))
                (inject_Z 2 + q_oy (s_v stp)) (1#100) (s_u stp) (s_v stp)) as [x y] eqn:Erk.
    assert (Ex : x == 571307573054497 # 1125000000000000).
    { change x with (fst (x, y)). rewrite <- Erk. vm_compute. reflexivity. }
    assert (Ey : y == 2250017349552997 # 1125000000000000).
    { change y with (snd (x, y)). rewrite <- Erk. vm_compute. reflexivity. }
    rewrite E, Ex, Ey in H02.
    assert (Hv : cerp no_junk (s_v stp) (571307573054497 # 1125000000000000)
                   (2250017349552997 # 1125000000000000) ==
                 -709033020955515186273976517344730914143302263227581 #
                   1423828125000000000000000000000000000000000000000000000)
      by (vm_compute; reflexivity).
    assert (Hne : ~ (-709033020955515186273976517344730914143302263227581 #
                   1423828125000000000000000000000000000000000000000000000 == 0))
      by (vm_compute; discriminate).
    apply Hne. rewrite <- Hv. exact H02.
Qed.

(** C3: the pressure solve of a step runs the sweep of its iteration type
    from the state [buildRhs] leaves.  Either it stops after the first sweep
    [n < 600] whose maximum change is below [1e-5], every earlier sweep having
    changed some cell by at least [1e-5], and reports [Converged n]; or all
    600 sweeps change some cell by at least [1e-5] and it reports
    [Exceeded 600] with the last maximum change.  In both cases the step
    goes on to [applyPressure] with the pressure of the last sweep. *)
Lemma pressure_solve_stops (junk : Z -> Q) (timestep : Q) (st : FluidSolver) :
  let st0 := buildRhs junk st in
  let sweep := solve_sweep junk timestep st0 in
  let '(st1, report) := pressure_solve junk timestep st0 in
  ((exists n, (n < 600)%nat /\
      (forall i, (i < n)%nat -> tolerance <= sweep_delta sweep i st0) /\
      sweep_delta sweep n st0 < tolerance /\
      st1 = sweep_iter sweep (S n) st0 /\
      report = Converged (Z.of_nat n) (sweep_delta sweep n st0)) \/
   ((forall i, (i < 600)%nat -> tolerance <= sweep_delta sweep i st0) /\
    st1 = sweep_iter sweep 600 st0 /\
    report = Exceeded 600 (sweep_delta sweep 599 st0))) /\
  update junk timestep st =
    (advect_fields junk timestep (applyPressure junk timestep st1), report).
Proof.
  intros st0 sweep.
  assert (Hps : pressure_solve junk timestep st0 =
                relax_from _ sweep 600 600 0 st0 0).
  { unfold pressure_solve, sweep, solve_sweep, project_jacobi, project, relax.
    destruct (s_iteration_type st0); reflexivity. }
  pose proof (relax_from_spec _ sweep 600 600 0 st0 0) as Hs.
  rewrite <- Hps in Hs.
  rewrite update_unfold. fold st0.
  destruct (pressure_solve junk timestep st0) as [st1 report].
  split; [|reflexivity].
  destruct Hs as [(n & Hn & Hbefore & Hlt & E1 & E2)|Hs]; [left|right; exact Hs].
  exists n. rewrite E2. repeat split; auto.
Qed.

(** C9: every value [advect] writes to the next buffer lies between any
    bounds of the values of the current buffer. *)
Lemma advect_no_new_extrema (junk : Z -> Q) (q : FluidQuantity) (timestep : Q)
    (u v : FluidQuantity) (m M : Q) (ix iy : Z) :
  List.length (q_src q) = Z.to_nat (q_w q * q_h q) ->
  List.length (q_dst q) = Z.to_nat (q_w q * q_h q) ->
  (forall k, (0 <= k < q_w q * q_h q)%Z -> m <= rd junk (q_src q) k <= M) ->
  (0 <= ix < q_w q)%Z -> (0 <= iy < q_h q)%Z ->
  m <= rd junk (q_dst (advect junk q timestep u v)) (ix + iy * q_w q) <= M.
Proof.
  intros Hs Hd Hin Hix Hiy.
  rewrite advect_dst_at by assumption. rewrite advect_point_eq.
  apply cerp_within; try lia.
  intros i j Hi Hj. unfold at_. apply Hin. nia.
Qed.

Lemma advect_no_new_extrema_witness :
  List.length (q_src corner_field) = Z.to_nat (q_w corner_field * q_h corner_field) /\
  List.length (q_dst corner_field) = Z.to_nat (q_w corner_field * q_h corner_field) /\
  (forall k, (0 <= k < q_w corner_field * q_h corner_field)%Z ->
     0 <= rd no_junk (q_src corner_field) k <= 1) /\
  (0 <= 0 < q_w corner_field)%Z /\ (0 <= 0 < q_h corner_field)%Z /\
  0 <= rd no_junk (q_dst (advect no_junk corner_field (1#10) uniform_u still_v))
         (0 + 0 * q_w corner_field) <= 1.
Proof.
  assert (Hs : List.length (q_src corner_field) =
               Z.to_nat (q_w corner_field * q_h corner_field)) by reflexivity.
  assert (Hd : List.length (q_dst corner_field) =
               Z.to_nat (q_w corner_field * q_h corner_field)) by reflexivity.
  assert (Hin : forall k, (0 <= k < q_w corner_field * q_h corner_field)%Z ->
                  0 <= rd no_junk (q_src corner_field) k <= 1).
  { intros k Hk. cbn in Hk.
    assert (K : (k = 0 \/ k = 1 \/ k = 2 \/ k = 3)%Z) by lia.
    destruct K as [-> | [-> | [-> | ->]]]; vm_compute; split; discriminate. }
  assert (Hx : (0 <= 0 < q_w corner_field)%Z) by (cbn; lia).
  assert (Hy : (0 <= 0 < q_h corner_field)%Z) by (cbn; lia).
  refine (conj Hs (conj Hd (conj Hin (conj Hx (conj Hy _))))).
  exact (advect_no_new_extrema no_junk corner_field (1#10) uniform_u still_v
             0 1 0 0 Hs Hd Hin Hx Hy).
Defined.

(** C10 (amended): [_p] is zero when the constructor builds a solver;
    [buildRhs] does not touch it, so the solve of a step starts from the
    [_p] the step was given; and the [_p] a step leaves is the one its solve
    computed.  Each step thus starts from the previous step's pressure. *)
Lemma pressure_warm_start :
  (forall (ok : nat -> Z -> bool) (w h : Z) (density : Q),
     match FluidSolver_new ok w h density with
     | Some st0 => s_p st0 = repeat 0 (Z.to_nat (int32 (w * h)))
     | None => True
     end) /\
  (forall (junk : Z -> Q) (st : FluidSolver), s_p (buildRhs junk st) = s_p st) /\
  (forall (junk : Z -> Q) (timestep : Q) (st : FluidSolver),
     s_p (fst (update junk timestep st)) =
     s_p (fst (pressure_solve junk timestep (buildRhs junk st)))).
Proof.
  split; [|split].
  - intros ok w h density.
    unfold FluidSolver_new, new_FluidQuantity, FluidQuantity_new, alloc; cbv zeta.
    split_allocs; reflexivity || exact I.
  - intros junk st. apply (buildRhs_shape junk st).
  - intros junk timestep st. apply update_keeps_p.
Qed.

(** C10 (counterexample): a later step can start from all-zero pressure.
    For the fresh 2x2 solver (a fluid at rest) the first step's solve
    leaves [_p] zero, so the second step starts from zero pressure too. *)
Lemma second_step_from_zero_pressure :
  ~ (forall (ok : nat -> Z -> bool) (w h : Z) (density : Q) (st0 : FluidSolver)
       (junk : Z -> Q) (timestep : Q),
       FluidSolver_new ok w h density = Some st0 ->
       ~ Forall (fun x => x == 0) (s_p (fst (update junk timestep st0)))).
Proof.
  assert (E : FluidSolver_new (fun _ _ => true) 2 2 1 = Some fresh_2x2)
    by (vm_compute; reflexivity).
  assert (Z0 : Forall (fun x => x == 0)
                 (s_p (fst (pressure_solve no_junk (1#100) (buildRhs no_junk fresh_2x2))))).
  { vm_compute. repeat constructor. }
  intros H. apply (H (fun _ _ => true) 2%Z 2%Z 1 fresh_2x2 no_junk (1#100) E).
  rewrite update_keeps_p. exact Z0.
Qed.

(** ** Further properties of the code *)

(** *** The pulse of [addInflow] *)

Lemma to_int_upper (x : Q) : 0 <= x -> x < inject_Z (to_int x) + 1.
Proof.
  destruct x as [n d]. unfold Qle, Qlt, to_int; simpl. intros H.
  rewrite Z.mul_1_r in H. rewrite Z.quot_div_nonneg by lia.
  pose proof (Z.mod_pos_bound n (Zpos d) eq_refl).
  pose proof (Z.div_mod n (Zpos d) ltac:(discriminate)).
  nia.
Qed.

Lemma cubicPulse_factor (t : Q) : 1 - t*t*(3 - 2*t) == (1 - t)*(1 - t)*(1 + 2*t).
Proof. ring. Qed.

Lemma clampPulse_bounds (x : Q) : 0 <= Qmin (Qabs x) 1 <= 1.
Proof.
  split; [apply Q.min_glb; [apply Qabs_nonneg | discriminate] | apply Q.le_min_r].
Qed.

(** [cubicPulse] takes its values in [[0, 1]]. *)
Lemma cubicPulse_bounds (x : Q) : 0 <= cubicPulse x <= 1.
Proof.
  unfold cubicPulse; cbv zeta.
  destruct (clampPulse_bounds x) as [H0 H1].
  set (t := Qmin (Qabs x) 1) in *.
  rewrite cubicPulse_factor. split.
  - apply Qmult_le_0_compat; [apply Qmult_le_0_compat|]; lra.
  - assert (0 <= t*t*(3 - 2*t)).
    { apply Qmult_le_0_compat; [apply Qmult_le_0_compat|]; lra. }
    rewrite <- cubicPulse_factor. lra.
Qed.

(** X2: the pulse [cubicPulse] is 1 at 0, is 0 from distance 1 on, and
    is even. *)
Lemma cubicPulse_shape :
  cubicPulse 0 == 1 /\
  (forall x, 1 <= Qabs x -> cubicPulse x == 0) /\
  (forall x, cubicPulse (- x) == cubicPulse x).
Proof.
  split; [reflexivity|split].
  - intros x Hx. unfold cubicPulse; cbv zeta. rewrite Q.min_r by exact Hx. reflexivity.
  - intros x. unfold cubicPulse. now rewrite Qabs_opp.
Qed.

(** X3: the pulse [cubicPulse] does not increase with the distance to 0:
    [|x| <= |y|] gives [cubicPulse y <= cubicPulse x]. *)
Lemma cubicPulse_monotone (x y : Q) :
  Qabs x <= Qabs y -> cubicPulse y <= cubicPulse x.
Proof.
  intros Hxy. unfold cubicPulse; cbv zeta.
  destruct (clampPulse_bounds x) as [Hs0 Hs1].
  destruct (clampPulse_bounds y) as [Ht0 Ht1].
  assert (Hst : Qmin (Qabs x) 1 <= Qmin (Qabs y) 1).
  { apply Q.min_glb; [eapply Qle_trans; [apply Q.le_min_l|exact Hxy] | apply Q.le_min_r]. }
  set (s := Qmin (Qabs x) 1) in *. set (t := Qmin (Qabs y) 1) in *.
  assert (E : (1 - s*s*(3 - 2*s)) - (1 - t*t*(3 - 2*t)) ==
              (t - s) * (t*(1 - s) + s*(1 - t) + 2*(t*(1 - t)) + 2*(s*(1 - s))))
    by ring.
  assert (0 <= (t - s) * (t*(1 - s) + s*(1 - t) + 2*(t*(1 - t)) + 2*(s*(1 - s)))).
  { apply Qmult_le_0_compat; [lra|].
    assert (0 <= t*(1 - s)) by (apply Qmult_le_0_compat; lra).
    assert (0 <= s*(1 - t)) by (apply Qmult_le_0_compat; lra).
    assert (0 <= t*(1 - t)) by (apply Qmult_le_0_compat; lra).
    assert (0 <= s*(1 - s)) by (apply Qmult_le_0_compat; lra).
    lra. }
  lra.
Qed.

(** *** Bounds of the bilinear sample *)

(** [lerp1] stays between two bounds of its end points. *)
Lemma lerp1_within (m M a b f : Q) :
  m <= a <= M -> m <= b <= M -> 0 <= f <= 1 -> m <= lerp1 a b f <= M.
Proof.
  intros [Ha1 Ha2] [Hb1 Hb2] [Hf0 Hf1]. unfold lerp1.
  assert (0 <= (a - m)*(1 - f)) by (apply Qmult_le_0_compat; lra).
  assert (0 <= (b - m)*f) by (apply Qmult_le_0_compat; lra).
  assert (0 <= (M - a)*(1 - f)) by (apply Qmult_le_0_compat; lra).
  assert (0 <= (M - b)*f) by (apply Qmult_le_0_compat; lra).
  split.
  - setoid_replace (a*(1 - f) + b*f) with (m + ((a - m)*(1 - f) + (b - m)*f)) by ring. lra.
  - setoid_replace (a*(1 - f) + b*f) with (M - ((M - a)*(1 - f) + (M - b)*f)) by ring. lra.
Qed.

(** The fraction of a clamped coordinate is in [[0, 1]]. *)
Lemma clamp_frac (x o : Q) (n : Z) :
  (2 <= n)%Z ->
  let c := Qmin (Qmax (x - o) 0) (inject_Z n - (1001#1000)) in
  0 <= c - inject_Z (to_int c) <= 1.
Proof.
  intros Hn c.
  assert (H2 : 2 <= inject_Z n) by (apply (inject_Z_le 2); exact Hn).
  assert (Hc0 : 0 <= c) by (apply Q.min_glb; [apply Q.le_max_r | lra]).
  destruct (to_int_nonneg_bounds c Hc0) as [_ Hl].
  pose proof (to_int_upper c Hc0). lra.
Qed.

Section Interp.
Variable junk : Z -> Q.

(** [lerp] stays within every bound of the field values. *)
Lemma lerp_bounds (q : FluidQuantity) (x y m M : Q) :
  (2 <= q_w q)%Z -> (2 <= q_h q)%Z ->
  (forall i j, (0 <= i < q_w q)%Z -> (0 <= j < q_h q)%Z -> m <= at_ junk q i j <= M) ->
  m <= lerp junk q x y <= M.
Proof.
  intros Hw Hh Hin. unfold lerp; cbv zeta.
  pose proof (clamp_index x (q_ox q) (q_w q) Hw) as Ix.
  pose proof (clamp_index y (q_oy q) (q_h q) Hh) as Iy.
  pose proof (clamp_frac x (q_ox q) (q_w q) Hw) as Fx.
  pose proof (clamp_frac y (q_oy q) (q_h q) Hh) as Fy.
  cbv zeta in Ix, Iy, Fx, Fy.
  apply lerp1_within; [apply lerp1_within| apply lerp1_within|]; auto;
    apply Hin; lia.
Qed.

End Interp.

(** *** The bicubic sample at the grid points *)

Section Cubic.
Variable junk : Z -> Q.

Lemma cerp1_frac0 (a b c d f : Q) : f == 0 -> cerp1 a b c d f == b.
Proof. intros E. rewrite (cerp1_Proper a a (Qeq_refl _) b b (Qeq_refl _) c c (Qeq_refl _) d d (Qeq_refl _) f 0 E). apply cerp1_at0. Qed.

(** [cerp] returns the stored value at the interior grid points. *)
Lemma cerp_grid_point (q : FluidQuantity) (ix iy : Z) :
  (0 <= ix <= q_w q - 2)%Z -> (0 <= iy <= q_h q - 2)%Z ->
  cerp junk q (inject_Z ix + q_ox q) (inject_Z iy + q_oy q) == at_ junk q ix iy.
Proof.
  intros Hix Hiy. unfold cerp; cbv zeta.
  assert (Hx : Qmin (Qmax (inject_Z ix + q_ox q - q_ox q) 0)
                 (inject_Z (q_w q) - (1001#1000)) == inject_Z ix)
    by (apply clamp_exact; [ring | lia]).
  assert (Hy : Qmin (Qmax (inject_Z iy + q_oy q - q_oy q) 0)
                 (inject_Z (q_h q) - (1001#1000)) == inject_Z iy)
    by (apply clamp_exact; [ring | lia]).
  rewrite (to_int_inject _ _ Hx), (to_int_inject _ _ Hy).
  assert (Fx : Qmin (Qmax (inject_Z ix + q_ox q - q_ox q) 0)
                 (inject_Z (q_w q) - (1001#1000)) - inject_Z ix == 0)
    by (rewrite Hx; ring).
  assert (Fy : Qmin (Qmax (inject_Z iy + q_oy q - q_oy q) 0)
                 (inject_Z (q_h q) - (1001#1000)) - inject_Z iy == 0)
    by (rewrite Hy; ring).
  clear Hx Hy.
  revert Fx Fy.
  generalize (Qmin (Qmax (inject_Z ix + q_ox q - q_ox q) 0)
                 (inject_Z (q_w q) - (1001#1000)) - inject_Z ix) as fx.
  generalize (Qmin (Qmax (inject_Z iy + q_oy q - q_oy q) 0)
                 (inject_Z (q_h q) - (1001#1000)) - inject_Z iy) as fy.
  intros fy fx Fx Fy.
  eapply Qeq_trans; [apply (cerp1_frac0 _ _ _ _ _ Fy)|].
  apply (cerp1_frac0 _ _ _ _ _ Fx).
Qed.
End Cubic.

(** *** The right-hand side and one Jacobi sweep *)

Section Sweeps.
Variable junk : Z -> Q.

(** The value [buildRhs] stores at a cell. *)
Lemma buildRhs_at (st : FluidSolver) (x y : Z) :
  List.length (s_r st) = Z.to_nat (s_w st * s_h st) ->
  (0 <= x < s_w st)%Z -> (0 <= y < s_h st)%Z ->
  rd junk (s_r (buildRhs junk st)) (x + y * s_w st) =
  - (1 / s_hx st) *
    (at_ junk (s_u st) (x + 1) y - at_ junk (s_u st) x y +
     at_ junk (s_v st) x (y + 1) - at_ junk (s_v st) x y).
Proof.
  intros Hl Hx Hy. unfold buildRhs; simpl.
  rewrite (fold_left_ext_eq _
             (fun b a => wr b (fst a + snd a * s_w st)
                (- (1 / s_hx st) *
                 (at_ junk (s_u st) (fst a + 1) (snd a) - at_ junk (s_u st) (fst a) (snd a) +
                  at_ junk (s_v st) (fst a) (snd a + 1) - at_ junk (s_v st) (fst a) (snd a)))))
    by (intros b [a1 a2]; reflexivity).
  apply fold_wr_at.
  - intros [x' y'] Hin. apply in_cells in Hin. simpl.
    apply (flat_index_in_buf _ _ (s_h st)); tauto.
  - intros [x' y'] Hin E. apply in_cells in Hin. simpl in *.
    destruct (flat_index_inj (s_w st) x' y' x y) as [-> ->]; tauto.
  - left. apply in_map_iff. exists (x, y). split; [reflexivity|].
    now apply in_cells.
Qed.

Lemma fold_pair_fst {A : Type} (f : list Q -> A -> list Q) (g : Q -> A -> Q)
    (L : list A) (b : list Q) (m : Q) :
  fst (fold_left (fun acc a => (f (fst acc) a, g (snd acc) a)) L (b, m)) =
  fold_left f L b.
Proof. revert b m; induction L as [|a L IH]; intros b m; simpl; auto. Qed.

Lemma fold_max_bound {A : Type} (f : list Q -> A -> list Q) (t : A -> Q)
    (L : list A) (b : list Q) (m : Q) :
  m <= snd (fold_left (fun acc a => (f (fst acc) a, Qmax (snd acc) (t a))) L (b, m)) /\
  (forall a, In a L ->
     t a <= snd (fold_left (fun acc a => (f (fst acc) a, Qmax (snd acc) (t a))) L (b, m))).
Proof.
  revert b m; induction L as [|a L IH]; intros b m; simpl.
  - split; [apply Qle_refl | tauto].
  - destruct (IH (f b a) (Qmax m (t a))) as [H1 H2]. split.
    + eapply Qle_trans; [apply Q.le_max_l | exact H1].
    + intros a' [<-|Ha]; auto.
      eapply Qle_trans; [apply Q.le_max_r | exact H1].
Qed.

Lemma memcpy_at (dst src : list Q) (n j : Z) :
  List.length dst = Z.to_nat n -> (0 <= j < n)%Z ->
  rd junk (memcpy junk dst src n) j = rd junk src j.
Proof.
  intros Hl Hj. unfold memcpy.
  apply (fold_wr_at junk (fun i => i) (rd junk src)).
  - intros a Ha. apply in_zrange in Ha. apply in_buf_spec. lia.
  - intros a _ ->. reflexivity.
  - left. rewrite map_id. now apply in_zrange.
Qed.

(** What a Jacobi sweep stores at a cell, and its [maxDelta]. *)
Lemma jacobi_sweep_at (scale : Q) (st : FluidSolver) (x y : Z) :
  List.length (s_p st) = Z.to_nat (s_w st * s_h st) ->
  List.length (s_p2 st) = Z.to_nat (s_w st * s_h st) ->
  (0 <= x < s_w st)%Z -> (0 <= y < s_h st)%Z ->
  let newP := newPressure junk (s_w st) (s_h st) scale (s_r st) (s_p st) x y in
  let '(st', maxDelta) := jacobi_sweep junk scale st in
  rd junk (s_p st') (x + y * s_w st) = newP /\
  rd junk (s_p2 st') (x + y * s_w st) = newP /\
  0 <= maxDelta /\
  Qabs (rd junk (s_p st) (x + y * s_w st) - newP) <= maxDelta.
Proof.
  intros Hp Hp2 Hx Hy newP. unfold jacobi_sweep; cbv zeta.
  set (idx := fun a : Z * Z => (fst a + snd a * s_w st)%Z).
  set (val := fun a : Z * Z =>
                newPressure junk (s_w st) (s_h st) scale (s_r st) (s_p st) (fst a) (snd a)).
  rewrite (fold_left_ext_eq _
             (fun acc a => (wr (fst acc) (idx a) (val a),
                            Qmax (snd acc) (Qabs (rd junk (s_p st) (idx a) - val a)))))
    by (intros [b m] [a1 a2]; reflexivity).
  pose proof (fold_pair_fst (fun b a => wr b (idx a) (val a))
                (fun m a => Qmax m (Qabs (rd junk (s_p st) (idx a) - val a)))
                (cells (s_w st) (s_h st)) (s_p2 st) 0) as Hf.
  pose proof (fold_max_bound (fun b a => wr b (idx a) (val a))
                (fun a => Qabs (rd junk (s_p st) (idx a) - val a))
                (cells (s_w st) (s_h st)) (s_p2 st) 0) as [Hm0 Hm].
  assert (Hat : rd junk (fold_left (fun b a => wr b (idx a) (val a))
                            (cells (s_w st) (s_h st)) (s_p2 st)) (x + y * s_w st) = newP).
  { apply fold_wr_at.
    - intros [x' y'] Hin. apply in_cells in Hin. unfold idx; simpl.
      apply (flat_index_in_buf _ _ (s_h st)); tauto.
    - intros [x' y'] Hin E. apply in_cells in Hin. unfold idx in E; simpl in *.
      destruct (flat_index_inj (s_w st) x' y' x y) as [-> ->]; tauto.
    - left. apply in_map_iff. exists (x, y). split; [reflexivity|].
      now apply in_cells. }
  assert (Hlen : List.length (fold_left (fun b a => wr b (idx a) (val a))
                               (cells (s_w st) (s_h st)) (s_p2 st)) =
                 Z.to_nat (s_w st * s_h st))
    by (rewrite fold_wr_length; exact Hp2).
  specialize (Hm (x, y) ltac:(now apply in_cells)).
  destruct (fold_left _ (cells (s_w st) (s_h st)) (s_p2 st, 0)) as [p2 md].
  simpl in Hf, Hm0, Hm |- *. subst p2.
  split; [|split; [exact Hat|split; [exact Hm0|exact Hm]]].
  rewrite memcpy_at; [exact Hat | exact Hp | nia].
Qed.

End Sweeps.

(** *** The shape of a step *)

Section Shape.
Variable junk : Z -> Q.

(** [advect] changes only the [_dst] buffer, and keeps its size. *)
Lemma advect_shape (q : FluidQuantity) (timestep : Q) (u v : FluidQuantity) :
  let q' := advect junk q timestep u v in
  q_src q' = q_src q /\ q_w q' = q_w q /\ q_h q' = q_h q /\
  q_ox q' = q_ox q /\ q_oy q' = q_oy q /\ q_hx q' = q_hx q /\
  List.length (q_dst q') = List.length (q_dst q).
Proof.
  cbv zeta. rewrite advect_dst_length. repeat split.
Qed.

Lemma advect_fields_wf (timestep : Q) (st : FluidSolver) :
  solver_wf st -> solver_wf (advect_fields junk timestep st).
Proof.
  unfold solver_wf, quantity_wf, advect_fields, with_fields, flip.
  cbn [s_d s_u s_v s_w s_h s_r s_p s_p2 q_src q_dst q_w q_h q_ox q_oy].
  destruct (advect_shape (s_d st) timestep (s_u st) (s_v st)) as (D1 & D2 & D3 & D4 & D5 & _ & D7).
  destruct (advect_shape (s_u st) timestep (s_u st) (s_v st)) as (U1 & U2 & U3 & U4 & U5 & _ & U7).
  destruct (advect_shape (s_v st) timestep (advect junk (s_u st) timestep (s_u st) (s_v st))
              (s_v st)) as (V1 & V2 & V3 & V4 & V5 & _ & V7).
  rewrite D1, D2, D3, D4, D5, D7, U1, U2, U3, U4, U5, U7, V1, V2, V3, V4, V5, V7.
  tauto.
Qed.

(** A step keeps a well-formed solver well formed. *)
Lemma update_wf (timestep : Q) (st : FluidSolver) :
  solver_wf st -> (0 <= s_w st)%Z -> (0 <= s_h st)%Z ->
  let st' := fst (update junk timestep st) in
  solver_wf st' /\ s_w st' = s_w st /\ s_h st' = s_h st /\
  s_hx st' = s_hx st /\ s_density st' = s_density st /\
  s_iteration_type st' = s_iteration_type st.
Proof.
  intros Hwf Hw Hh st'. unfold st'. rewrite update_unfold. cbn [fst].
  pose proof (pressure_solve_shape junk timestep (buildRhs junk st)) as P.
  pose proof (buildRhs_shape junk st) as B. cbv zeta in B.
  destruct (solve_wf junk timestep st Hwf) as (Hwf2 & Hw2 & Hh2).
  destruct (applyPressure_spec junk timestep
              (fst (pressure_solve junk timestep (buildRhs junk st)))
              Hwf2 ltac:(lia) ltac:(lia)) as (Hwfp & Hwp & Hhp & _ & Hit & _).
  split; [now apply advect_fields_wf|].
  unfold advect_fields, with_fields; simpl.
  unfold keeps_shape in P.
  unfold applyPressure; cbv zeta.
  destruct (fold_left _ _ _) as [u1 v1]. simpl.
  unfold applyPressure in Hit; cbv zeta in Hit.
  intuition congruence.
Qed.
End Shape.

(** *** The density field does not drive the flow *)

Section Commute.
Variable St : Type.
Variable g : St -> St.
Variable sweep : St -> St * Q.
Variable limit : Z.
Hypothesis Hsweep : forall s, sweep (g s) = (g (fst (sweep s)), snd (sweep s)).

(** The relaxation loop commutes with a map the sweep commutes with. *)
Lemma relax_from_commute (fuel : nat) (iter : Z) (s : St) (md : Q) :
  relax_from St sweep limit fuel iter (g s) md =
  (g (fst (relax_from St sweep limit fuel iter s md)),
   snd (relax_from St sweep limit fuel iter s md)).
Proof.
  revert iter s md; induction fuel as [|fuel IH]; intros iter s md; [reflexivity|].
  cbn [relax_from]. rewrite Hsweep.
  destruct (sweep s) as [s1 d]; simpl.
  destruct (Qltb d tolerance); [reflexivity|]. apply IH.
Qed.
End Commute.

Section Density.
Variable junk : Z -> Q.

Lemma buildRhs_with_d (st : FluidSolver) (d : FluidQuantity) :
  buildRhs junk (with_d st d) = with_d (buildRhs junk st) d.
Proof. reflexivity. Qed.

Lemma jacobi_sweep_with_d (scale : Q) (d : FluidQuantity) (st : FluidSolver) :
  jacobi_sweep junk scale (with_d st d) =
  (with_d (fst (jacobi_sweep junk scale st)) d, snd (jacobi_sweep junk scale st)).
Proof.
  unfold jacobi_sweep, with_d, with_fields; cbn [s_d s_u s_v s_w s_h s_hx s_density s_r s_p s_p2 s_iteration_type].
  destruct (fold_left _ _ _); reflexivity.
Qed.

Lemma gs_sweep_with_d (scale : Q) (d : FluidQuantity) (st : FluidSolver) :
  gs_sweep junk scale (with_d st d) =
  (with_d (fst (gs_sweep junk scale st)) d, snd (gs_sweep junk scale st)).
Proof.
  unfold gs_sweep, with_d, with_fields; cbn [s_d s_u s_v s_w s_h s_hx s_density s_r s_p s_p2 s_iteration_type].
  destruct (fold_left _ _ _); reflexivity.
Qed.

Lemma pressure_solve_with_d (timestep : Q) (d : FluidQuantity) (st : FluidSolver) :
  pressure_solve junk timestep (with_d st d) =
  (with_d (fst (pressure_solve junk timestep st)) d, snd (pressure_solve junk timestep st)).
Proof.
  unfold pressure_solve, project, project_jacobi, relax.
  change (s_iteration_type (with_d st d)) with (s_iteration_type st).
  change (s_density (with_d st d)) with (s_density st).
  change (s_hx (with_d st d)) with (s_hx st).
  destruct (s_iteration_type st); apply (relax_from_commute _ (fun s => with_d s d)); intros s.
  - apply gs_sweep_with_d.
  - apply jacobi_sweep_with_d.
Qed.

Lemma applyPressure_with_d (timestep : Q) (d : FluidQuantity) (st : FluidSolver) :
  applyPressure junk timestep (with_d st d) = with_d (applyPressure junk timestep st) d.
Proof.
  unfold applyPressure, with_d, with_fields; cbn [s_d s_u s_v s_w s_h s_hx s_density s_r s_p s_p2 s_iteration_type].
  destruct (fold_left _ _ _); reflexivity.
Qed.

(** X13: the density field does not drive a step: two solvers that differ
    only in their density field step to solvers that differ only in their
    density field, with the same report of the pressure solve. *)
Lemma update_ignores_density (timestep : Q) (st : FluidSolver) (d : FluidQuantity) :
  let '(st1, report1) := update junk timestep st in
  let '(st2, report2) := update junk timestep (with_d st d) in
  st2 = with_d st1 (s_d st2) /\ report2 = report1.
Proof.
  rewrite !update_unfold. rewrite buildRhs_with_d, pressure_solve_with_d.
  cbn [fst snd]. rewrite applyPressure_with_d.
  split; [|reflexivity].
  unfold advect_fields, with_d, with_fields; cbn [s_d s_u s_v s_w s_h s_hx s_density s_r s_p s_p2 s_iteration_type].
  reflexivity.
Qed.
End Density.

(** *** Sums over the cells *)

Lemma NoDup_map_inj {A B : Type} (f : A -> B) (l : list A) :
  (forall a b, f a = f b -> a = b) -> NoDup l -> NoDup (map f l).
Proof.
  intros Hf Hl. induction Hl as [|a l Ha Hl IH]; simpl; constructor; auto.
  intros Hin. apply in_map_iff in Hin. destruct Hin as [b [E Hb]].
  apply Hf in E. subst. contradiction.
Qed.

Lemma zrange_NoDup (lo hi : Z) : NoDup (zrange lo hi).
Proof.
  unfold zrange. apply NoDup_map_inj; [intros a b E; lia | apply seq_NoDup].
Qed.

Lemma grid_NoDup (xs ys : list Z) : NoDup xs -> NoDup ys -> NoDup (grid xs ys).
Proof.
  intros Hx Hy. unfold grid. induction Hy as [|y ys Hy Hys IH]; simpl; [constructor|].
  apply NoDup_app; auto.
  - apply NoDup_map_inj; [intros a b E; congruence | exact Hx].
  - intros [a b] Ha Hb. apply in_map_iff in Ha. destruct Ha as [a' [E _]].
    inversion E; subst. apply in_flat_map in Hb. destruct Hb as [y' [Hy' Hb]].
    apply in_map_iff in Hb. destruct Hb as [a'' [E' _]]. inversion E'; subst.
    contradiction.
Qed.

Lemma cells_NoDup (w h : Z) : NoDup (cells w h).
Proof. apply grid_NoDup; apply zrange_NoDup. Qed.

Lemma cell_eqb_spec (a b : Z * Z) : cell_eqb a b = true <-> a = b.
Proof.
  destruct a as [a1 a2], b as [b1 b2]. unfold cell_eqb; simpl.
  rewrite andb_true_iff, !Z.eqb_eq. split; [intros [-> ->]; reflexivity | intros E; inversion E; auto].
Qed.

Lemma sumQ_plus {A : Type} (f g : A -> Q) (L : list A) :
  sumQ (map (fun a => f a + g a) L) == sumQ (map f L) + sumQ (map g L).
Proof. induction L as [|a L IH]; simpl; [reflexivity|]. rewrite IH. ring. Qed.

Lemma sumQ_zero {A : Type} (f : A -> Q) (L : list A) :
  (forall a, In a L -> f a == 0) -> sumQ (map f L) == 0.
Proof.
  induction L as [|a L IH]; simpl; intros H; [reflexivity|].
  rewrite H, IH by auto. reflexivity.
Qed.

Lemma sumQ_unique (L : list (Z * Z)) (a0 : Z * Z) (d : Z * Z -> Q) :
  NoDup L -> In a0 L ->
  sumQ (map (fun a => if cell_eqb a a0 then d a else 0) L) == d a0.
Proof.
  intros Hnd. induction Hnd as [|a L Ha Hnd IH]; simpl; [tauto|].
  intros [<-|Hin].
  - assert (E : cell_eqb a a = true) by (now apply cell_eqb_spec). rewrite E.
    rewrite sumQ_zero; [ring|].
    intros b Hb. destruct (cell_eqb b a) eqn:Eb; [|reflexivity].
    apply cell_eqb_spec in Eb; subst; contradiction.
  - destruct (cell_eqb a a0) eqn:Ea.
    + apply cell_eqb_spec in Ea; subst; contradiction.
    + rewrite IH by exact Hin. ring.
Qed.

Section Scatter.
Variable junk : Z -> Q.

Lemma at_upd (q : FluidQuantity) (x y x' y' : Z) (f : Q -> Q) :
  (0 <= x < q_w q)%Z -> (0 <= x' < q_w q)%Z ->
  in_buf (q_src q) (x + y * q_w q) = true ->
  at_ junk (upd_at junk q x y f) x' y' =
  if cell_eqb (x', y') (x, y) then f (at_ junk q x y) else at_ junk q x' y'.
Proof.
  intros Hx Hx' Hb. unfold upd_at, set_at, at_, with_src; cbn [q_src q_w].
  rewrite rd_wr by exact Hb.
  destruct (Z.eqb_spec (x' + y' * q_w q) (x + y * q_w q)) as [E|E];
    destruct (cell_eqb (x', y') (x, y)) eqn:C; try reflexivity.
  - apply flat_index_inj in E; [|lia|lia]. destruct E as [-> ->].
    unfold cell_eqb in C; simpl in C. rewrite !Z.eqb_refl in C. discriminate.
  - apply cell_eqb_spec in C. inversion C; subst. contradiction.
Qed.

Lemma fold_add_q {A : Type} (step : FluidQuantity -> A -> FluidQuantity)
    (c : A -> Q) (P : FluidQuantity -> Prop) (L : list A) (q : FluidQuantity) (x y : Z) :
  (forall q a, In a L -> P q -> P (step q a) /\ at_ junk (step q a) x y == at_ junk q x y + c a) ->
  P q ->
  at_ junk (fold_left step L q) x y == at_ junk q x y + sumQ (map c L).
Proof.
  revert q; induction L as [|a L IH]; intros q Hs Hp; simpl; [ring|].
  destruct (Hs q a (or_introl eq_refl) Hp) as [Hp' E].
  rewrite IH; [|intros; apply Hs; auto; right; auto | exact Hp'].
  rewrite E. ring.
Qed.

Lemma scatter_split (w : Z) (scale : Q) (p : list Q) (L : list (Z * Z))
    (u v : FluidQuantity) :
  fold_left
      (fun '(u, v) '(x, y) =>
         let pv := rd junk p (x + y * w) in
         let u := upd_at junk u x y (fun a => a - scale * pv) in
         let u := upd_at junk u (x + 1) y (fun a => a + scale * pv) in
         let v := upd_at junk v x y (fun a => a - scale * pv) in
         let v := upd_at junk v x (y + 1) (fun a => a + scale * pv) in
         (u, v)) L (u, v) =
  (fold_left (fun u a =>
                upd_at junk (upd_at junk u (fst a) (snd a)
                               (fun b => b - scale * rd junk p (fst a + snd a * w)))
                  (fst a + 1) (snd a) (fun b => b + scale * rd junk p (fst a + snd a * w)))
             L u,
   fold_left (fun v a =>
                upd_at junk (upd_at junk v (fst a) (snd a)
                               (fun b => b - scale * rd junk p (fst a + snd a * w)))
                  (fst a) (snd a + 1) (fun b => b + scale * rd junk p (fst a + snd a * w)))
             L v).
Proof.
  revert u v; induction L as [|[x y] L IH]; intros u v; simpl; [reflexivity|].
  apply IH.
Qed.

End Scatter.

(** *** Scattered updates of a field *)

Section ScatterField.
Variable junk : Z -> Q.

Lemma cell_eqb_reflect (a b : Z * Z) : reflect (a = b) (cell_eqb a b).
Proof. apply iff_reflect. symmetry. apply cell_eqb_spec. Qed.

Lemma upd_at_shape (q : FluidQuantity) (x y : Z) (f : Q -> Q) :
  q_w (upd_at junk q x y f) = q_w q /\
  List.length (q_src (upd_at junk q x y f)) = List.length (q_src q).
Proof. unfold upd_at, set_at, with_src; simpl. now rewrite wr_length. Qed.

(** One field of the scatter loop of [applyPressure]: every cell [a]
    subtracts [s * p a] at [a] and adds it at its neighbour [(nx a, ny a)]. *)
Lemma scatter_field_at (q : FluidQuantity) (Hgt : Z) (L : list (Z * Z))
    (s : Q) (pa : Z * Z -> Q) (nx ny : Z * Z -> Z) (x y : Z) (prev : Z * Z) :
  List.length (q_src q) = Z.to_nat (q_w q * Hgt) ->
  (forall a, In a L -> (0 <= fst a < q_w q)%Z /\ (0 <= snd a < Hgt)%Z /\
                       (0 <= nx a < q_w q)%Z /\ (0 <= ny a < Hgt)%Z /\
                       (nx a, ny a) <> a) ->
  (forall a, In a L -> (nx a, ny a) = (x, y) <-> a = prev) ->
  NoDup L -> In (x, y) L -> In prev L -> (0 <= x < q_w q)%Z ->
  at_ junk (fold_left (fun u a =>
                upd_at junk (upd_at junk u (fst a) (snd a) (fun b => b - s * pa a))
                  (nx a) (ny a) (fun b => b + s * pa a)) L q) x y ==
  at_ junk q x y - s * pa (x, y) + s * pa prev.
Proof.
  intros Hlen HL Hprev Hnd Hxy Hpr Hx.
  rewrite (fold_add_q junk _
             (fun a => (if cell_eqb a (x, y) then - (s * pa a) else 0) +
                       (if cell_eqb a prev then s * pa a else 0))
             (fun u => q_w u = q_w q /\ List.length (q_src u) = Z.to_nat (q_w q * Hgt))).
  - rewrite sumQ_plus.
    rewrite (sumQ_unique L (x, y) (fun a => - (s * pa a))) by assumption.
    rewrite (sumQ_unique L prev (fun a => s * pa a)) by assumption.
    ring.
  - intros u a Ha [Hw Hl].
    destruct (HL a Ha) as (H1 & H2 & H3 & H4 & H5).
    destruct (upd_at_shape u (fst a) (snd a) (fun b => b - s * pa a)) as [Hw1 Hl1].
    destruct (upd_at_shape (upd_at junk u (fst a) (snd a) (fun b => b - s * pa a))
                (nx a) (ny a) (fun b => b + s * pa a)) as [Hw2 Hl2].
    split; [split; congruence|].
    rewrite at_upd; [| rewrite Hw1, Hw; lia | rewrite Hw1, Hw; lia
                     | apply in_buf_spec; rewrite Hl1, Hl, Hw1, Hw; nia].
    rewrite !at_upd; [| rewrite Hw; lia | rewrite Hw; lia
                      | apply in_buf_spec; rewrite Hl, Hw; nia
                      | rewrite Hw; lia | rewrite Hw; lia
                      | apply in_buf_spec; rewrite Hl, Hw; nia].
    specialize (Hprev a Ha).
    destruct a as [ax ay]. cbn [fst snd] in *.
    set (n1 := nx (ax, ay)) in *. set (n2 := ny (ax, ay)) in *.
    destruct (cell_eqb_reflect (x, y) (n1, n2)) as [E1|E1].
    + assert (Ep : (ax, ay) = prev) by (apply Hprev; congruence).
      destruct (cell_eqb_reflect (n1, n2) (ax, ay)) as [E2|E2]; [contradiction|].
      destruct (cell_eqb_reflect (ax, ay) (x, y)) as [E4|E4]; [congruence|].
      destruct (cell_eqb_reflect (ax, ay) prev) as [E5|E5]; [|contradiction].
      injection E1 as Ex Ey. rewrite <- Ex, <- Ey. ring.
    + destruct (cell_eqb_reflect (ax, ay) prev) as [E5|E5].
      { exfalso. apply E1. symmetry. apply Hprev. exact E5. }
      destruct (cell_eqb_reflect (x, y) (ax, ay)) as [E3|E3];
        destruct (cell_eqb_reflect (ax, ay) (x, y)) as [E4|E4];
        try congruence.
      * inversion E3; subst. ring.
      * ring.
  - split; reflexivity || exact Hlen.
Qed.

End ScatterField.

(** *** The pressure gradient of [applyPressure] *)

Section Gradient.
Variable junk : Z -> Q.

Lemma fold_wr2_other {A : Type} (i1 i2 : A -> Z) (L : list A) (b : list Q) (j : Z) :
  (forall a, In a L -> j <> i1 a /\ j <> i2 a) ->
  rd junk (fold_left (fun b a => wr (wr b (i1 a) 0) (i2 a) 0) L b) j = rd junk b j.
Proof.
  revert b; induction L as [|c L IH]; intros b Hj; simpl; [reflexivity|].
  rewrite IH by (intros; apply Hj; right; auto).
  destruct (Hj c (or_introl eq_refl)). now rewrite !rd_wr_other.
Qed.

(** [applyPressure] at the interior faces. *)
Lemma applyPressure_interior_faces (timestep : Q) (st : FluidSolver) :
  solver_wf st ->
  let scale := timestep / (s_density st * s_hx st) in
  let p i j := rd junk (s_p st) (i + j * s_w st) in
  let st' := applyPressure junk timestep st in
  (forall x y, (0 < x < s_w st)%Z -> (0 <= y < s_h st)%Z ->
     at_ junk (s_u st') x y == at_ junk (s_u st) x y - scale * (p x y - p (x - 1)%Z y)) /\
  (forall x y, (0 <= x < s_w st)%Z -> (0 < y < s_h st)%Z ->
     at_ junk (s_v st') x y == at_ junk (s_v st) x y - scale * (p x y - p x (y - 1)%Z)).
Proof.
  intros Hwf scale p st'.
  destruct Hwf as (_ & (Huw & _ & _ & _ & Husrc & _) & (Hvw & _ & _ & _ & Hvsrc & _) & _).
  unfold st', applyPressure. fold scale.
  rewrite scatter_split. cbv beta iota zeta.
  set (U1 := fold_left _ (cells (s_w st) (s_h st)) (s_u st)).
  set (V1 := fold_left _ (cells (s_w st) (s_h st)) (s_v st)).
  destruct (set_at_fold_src junk (zrange 0 (s_h st)) (fun _ => s_w st) (fun y => y)
              (fun _ => 0%Z) (fun y => y) U1) as (A1 & A2 & _).
  destruct (set_at_fold_src junk (zrange 0 (s_w st)) (fun x => x) (fun _ => s_h st)
              (fun x => x) (fun _ => 0%Z) V1) as (B1 & B2 & _).
  assert (UW : q_w U1 = q_w (s_u st)).
  { unfold U1. clear. generalize (s_u st).
    induction (cells (s_w st) (s_h st)) as [|a L IH]; intros u; simpl; auto.
    rewrite IH. unfold upd_at, set_at, with_src; reflexivity. }
  assert (VW : q_w V1 = q_w (s_v st)).
  { unfold V1. clear. generalize (s_v st).
    induction (cells (s_w st) (s_h st)) as [|a L IH]; intros v; simpl; auto.
    rewrite IH. unfold upd_at, set_at, with_src; reflexivity. }
  unfold with_fields; cbn [s_u s_v]. split.
  - intros x y Hx Hy. unfold at_ at 1. rewrite A1, A2.
    rewrite fold_wr2_other.
    2:{ intros a Ha. apply in_zrange in Ha. rewrite UW, Huw. split; intros E.
        - apply flat_index_inj in E; lia.
        - apply flat_index_inj in E; lia. }
    change (rd junk (q_src U1) (x + y * q_w U1)) with (at_ junk U1 x y).
    unfold U1.
    eapply Qeq_trans.
    + apply (scatter_field_at junk (s_u st) (s_h st) (cells (s_w st) (s_h st)) scale
               (fun a => rd junk (s_p st) (fst a + snd a * s_w st))
               (fun a => (fst a + 1)%Z) (fun a => snd a) x y ((x - 1)%Z, y)).
      * rewrite Husrc, Huw. reflexivity.
      * intros [a1 a2] Ha. apply in_cells in Ha. simpl. rewrite Huw.
        split; [lia|]. split; [lia|]. split; [lia|]. split; [lia|].
        intros E; inversion E; lia.
      * intros [a1 a2] _. simpl. split; intros E; inversion E; f_equal; lia.
      * apply cells_NoDup.
      * apply in_cells. lia.
      * apply in_cells. lia.
      * rewrite Huw. lia.
    + unfold p; simpl. ring.
  - intros x y Hx Hy. unfold at_ at 1. rewrite B1, B2.
    rewrite fold_wr2_other.
    2:{ intros a Ha. apply in_zrange in Ha. rewrite VW, Hvw. split; intros E.
        - apply flat_index_inj in E; lia.
        - apply flat_index_inj in E; lia. }
    change (rd junk (q_src V1) (x + y * q_w V1)) with (at_ junk V1 x y).
    unfold V1.
    eapply Qeq_trans.
    + apply (scatter_field_at junk (s_v st) (s_h st + 1) (cells (s_w st) (s_h st)) scale
               (fun a => rd junk (s_p st) (fst a + snd a * s_w st))
               (fun a => fst a) (fun a => (snd a + 1)%Z) x y (x, (y - 1)%Z)).
      * rewrite Hvsrc, Hvw. reflexivity.
      * intros [a1 a2] Ha. apply in_cells in Ha. simpl. rewrite Hvw.
        split; [lia|]. split; [lia|]. split; [lia|]. split; [lia|].
        intros E; inversion E; lia.
      * intros [a1 a2] _. simpl. split; intros E; inversion E; f_equal; lia.
      * apply cells_NoDup.
      * apply in_cells. lia.
      * apply in_cells. lia.
      * rewrite Hvw. lia.
    + unfold p; simpl. ring.
Qed.

End Gradient.

(** *** A pressure that already solves the equations *)

Lemma fold_max_le {A : Type} (f : list Q -> A -> list Q) (t : A -> Q)
    (L : list A) (b : list Q) (m B : Q) :
  m <= B -> (forall a, In a L -> t a <= B) ->
  snd (fold_left (fun acc a => (f (fst acc) a, Qmax (snd acc) (t a))) L (b, m)) <= B.
Proof.
  revert b m; induction L as [|a L IH]; intros b m Hm Ht; simpl; [exact Hm|].
  apply IH.
  - apply Q.max_lub; [exact Hm | apply Ht; left; reflexivity].
  - intros a' Ha'. apply Ht. right. exact Ha'.
Qed.

Section AtRest.
Variable junk : Z -> Q.

Lemma newPressure_compat (w h : Z) (scale : Q) (r p1 p2 : list Q) (x y : Z) :
  (forall j, rd junk p1 j == rd junk p2 j) ->
  newPressure junk w h scale r p1 x y == newPressure junk w h scale r p2 x y.
Proof.
  intros H. unfold newPressure; cbv zeta.
  destruct (x >? 0)%Z, (y >? 0)%Z, (x <? w - 1)%Z, (y <? h - 1)%Z;
    cbv beta iota; rewrite ?H; reflexivity.
Qed.

Lemma gs_fold_rest (w h : Z) (scale : Q) (r p : list Q) (L : list (Z * Z))
    (pc : list Q) (m : Q) :
  at_rest junk w h scale r p ->
  (forall a, In a L -> (0 <= fst a < w)%Z /\ (0 <= snd a < h)%Z) ->
  (forall j, rd junk pc j == rd junk p j) -> m == 0 ->
  let '(p', m') :=
    fold_left
      (fun '(p, maxDelta) '(x, y) =>
         let idx := (x + y * w)%Z in
         let newP := newPressure junk w h scale r p x y in
         (wr p idx newP, Qmax maxDelta (Qabs (rd junk p idx - newP))))
      L (pc, m) in
  (forall j, rd junk p' j == rd junk p j) /\ m' == 0.
Proof.
  intros Hrest. revert pc m; induction L as [|[x y] L IH]; intros pc m HL Hpc Hm;
    cbn [fold_left]; [auto|].
  destruct (HL (x, y) (or_introl eq_refl)) as [Hx Hy]; simpl in Hx, Hy.
  assert (En : newPressure junk w h scale r pc x y == rd junk p (x + y * w)).
  { rewrite (newPressure_compat w h scale r pc p x y Hpc). apply Hrest; assumption. }
  apply IH.
  - intros a Ha; apply HL; right; exact Ha.
  - intros j. destruct (Z.eq_dec j (x + y * w)) as [->|Hne].
    + destruct (in_buf pc (x + y * w)) eqn:Hb.
      * rewrite rd_wr_same by exact Hb. exact En.
      * unfold wr. rewrite Hb. apply Hpc.
    + rewrite rd_wr_other by exact Hne. apply Hpc.
  - rewrite Hm, En, Hpc. setoid_replace (rd junk p (x + y * w) - rd junk p (x + y * w)) with 0 by ring.
    reflexivity.
Qed.

(** If the pressure already solves every cell's equation, the solve
    stops after its first sweep with [maxDelta = 0] and the pressure is
    unchanged. *)
Lemma pressure_solve_at_rest (timestep : Q) (st : FluidSolver) :
  List.length (s_p st) = Z.to_nat (s_w st * s_h st) ->
  List.length (s_p2 st) = Z.to_nat (s_w st * s_h st) ->
  at_rest junk (s_w st) (s_h st) (timestep / (s_density st * s_hx st * s_hx st))
    (s_r st) (s_p st) ->
  let '(st', report) := pressure_solve junk timestep st in
  (exists md, report = Converged 0 md /\ md == 0) /\
  (forall x y, (0 <= x < s_w st)%Z -> (0 <= y < s_h st)%Z ->
     rd junk (s_p st') (x + y * s_w st) == rd junk (s_p st) (x + y * s_w st)).
Proof.
  intros Hp Hp2 Hrest.
  set (scale := timestep / (s_density st * s_hx st * s_hx st)) in *.
  assert (Hsweep : forall (sw : FluidSolver -> FluidSolver * Q),
    (let '(st', md) := sw st in
     md == 0 /\ (forall x y, (0 <= x < s_w st)%Z -> (0 <= y < s_h st)%Z ->
       rd junk (s_p st') (x + y * s_w st) == rd junk (s_p st) (x + y * s_w st))) ->
    let '(st', report) := relax FluidSolver sw 600 st in
    (exists md, report = Converged 0 md /\ md == 0) /\
    (forall x y, (0 <= x < s_w st)%Z -> (0 <= y < s_h st)%Z ->
       rd junk (s_p st') (x + y * s_w st) == rd junk (s_p st) (x + y * s_w st))).
  { intros sw Hs. unfold relax. change (Z.to_nat 600) with (S 599). cbn [relax_from].
    destruct (sw st) as [st1 md] eqn:E. destruct Hs as [Hmd Hat].
    assert (Hlt : Qltb md tolerance = true) by (apply Qltb_iff; rewrite Hmd; reflexivity).
    rewrite Hlt. split; [exists md; auto | exact Hat]. }
  unfold pressure_solve, project, project_jacobi. fold scale.
  destruct (s_iteration_type st); apply Hsweep.
  - unfold gs_sweep; cbv zeta.
    pose proof (gs_fold_rest (s_w st) (s_h st) scale (s_r st) (s_p st)
                  (cells (s_w st) (s_h st)) (s_p st) 0 Hrest) as G.
    destruct (fold_left _ _ _) as [p' m'].
    destruct G as [G1 G2].
    + intros [a1 a2] Ha; apply in_cells in Ha; exact Ha.
    + intros j; reflexivity.
    + reflexivity.
    + split; [exact G2|]. intros x y _ _. apply G1.
  - assert (Hcell : forall x y, (0 <= x < s_w st)%Z -> (0 <= y < s_h st)%Z ->
      let '(st', md) := jacobi_sweep junk scale st in
      rd junk (s_p st') (x + y * s_w st) == rd junk (s_p st) (x + y * s_w st)).
    { intros x y Hx Hy. pose proof (jacobi_sweep_at junk scale st x y Hp Hp2 Hx Hy) as J.
      cbv zeta in J. destruct (jacobi_sweep junk scale st) as [st' md].
      destruct J as [J1 _]. rewrite J1. apply Hrest; assumption. }
    assert (Hmd : snd (jacobi_sweep junk scale st) <= 0 /\
                  0 <= snd (jacobi_sweep junk scale st)).
    { unfold jacobi_sweep; cbv zeta.
      set (idx := fun a : Z * Z => (fst a + snd a * s_w st)%Z).
      set (val := fun a : Z * Z =>
                    newPressure junk (s_w st) (s_h st) scale (s_r st) (s_p st) (fst a) (snd a)).
      rewrite (fold_left_ext_eq _
                 (fun acc a => (wr (fst acc) (idx a) (val a),
                                Qmax (snd acc) (Qabs (rd junk (s_p st) (idx a) - val a)))))
        by (intros [b m] [a1 a2]; reflexivity).
      pose proof (fold_max_le (fun b a => wr b (idx a) (val a))
                    (fun a => Qabs (rd junk (s_p st) (idx a) - val a))
                    (cells (s_w st) (s_h st)) (s_p2 st) 0 0 (Qle_refl 0)) as K.
      pose proof (fold_max_bound (fun b a => wr b (idx a) (val a))
                    (fun a => Qabs (rd junk (s_p st) (idx a) - val a))
                    (cells (s_w st) (s_h st)) (s_p2 st) 0) as [K0 _].
      destruct (fold_left _ _ _) as [p2 md]. cbn [fst snd] in K, K0 |- *.
      split; [|exact K0]. apply K.
      intros [x y] Ha. apply in_cells in Ha. unfold idx, val; cbn [fst snd].
      rewrite (Hrest x y) by tauto.
      setoid_replace (rd junk (s_p st) (x + y * s_w st) - rd junk (s_p st) (x + y * s_w st))
        with 0 by ring.
      apply Qle_refl. }
    destruct (jacobi_sweep junk scale st) as [st' md] eqn:E.
    simpl in Hmd. split; [apply Qle_antisym; tauto|].
    intros x y Hx Hy. exact (Hcell x y Hx Hy).
Qed.
End AtRest.

(** *** The magnitude of [addInflow] *)

Section Inflow.
Variable junk : Z -> Q.

(** X6: after [addInflow q ... v] every value of the buffer has a magnitude
    of at most the larger of its old magnitude and [|v|]. *)
Lemma addInflow_bounded (sqrt : Q -> Q) (q : FluidQuantity) (x0 y0 x1 y1 v : Q) (j : Z) :
  Qabs (rd junk (q_src (addInflow junk sqrt q x0 y0 x1 y1 v)) j) <=
  Qmax (Qabs (rd junk (q_src q) j)) (Qabs v).
Proof.
  unfold addInflow, with_src; cbn [q_src].
  assert (Hs : Qabs (rd junk (q_src q) j) <= Qmax (Qabs (rd junk (q_src q) j)) (Qabs v))
    by apply Q.le_max_l.
  revert Hs. generalize (q_src q) at 1 3. intros s Hs.
  revert s Hs. induction (addInflow_cells q x0 y0 x1 y1) as [|[x y] L IH];
    intros s Hs; cbn [fold_left]; [exact Hs|].
  apply IH. cbv beta iota zeta.
  destruct (Qltb _ _); [|exact Hs].
  destruct (Z.eq_dec j (x + y * q_w q)) as [->|Hne].
  - destruct (in_buf s (x + y * q_w q)) eqn:Hb.
    + rewrite rd_wr_same by exact Hb.
      eapply Qle_trans; [|apply Q.le_max_r].
      rewrite Qabs_Qmult.
      destruct (cubicPulse_bounds
                  (length sqrt
                     ((2 * (inject_Z x + (1 # 2)) * q_hx q - (x0 + x1)) / (x1 - x0))
                     ((2 * (inject_Z y + (1 # 2)) * q_hx q - (y0 + y1)) / (y1 - y0))))
        as [C0 C1].
      rewrite (Qabs_pos _ C0).
      pose proof (Qabs_nonneg v).
      setoid_replace (Qabs v) with (1 * Qabs v) at 2 by ring.
      apply Qmult_le_compat_r; assumption.
    + unfold wr. rewrite Hb. exact Hs.
  - rewrite rd_wr_other by exact Hne. exact Hs.
Qed.

End Inflow.

(** *** Advection at rest *)

Section Still.
Variable junk : Z -> Q.

Lemma lerp_still (q : FluidQuantity) (x y : Q) :
  (2 <= q_w q)%Z -> (2 <= q_h q)%Z ->
  (forall i j, (0 <= i < q_w q)%Z -> (0 <= j < q_h q)%Z -> at_ junk q i j == 0) ->
  lerp junk q x y == 0.
Proof.
  intros Hw Hh H0.
  destruct (lerp_bounds junk q x y 0 0 Hw Hh) as [A B].
  - intros i j Hi Hj. rewrite (H0 i j Hi Hj). split; apply Qle_refl.
  - apply Qle_antisym; assumption.
Qed.

Lemma rungeKutta3_still (q : FluidQuantity) (x y timestep : Q) (u v : FluidQuantity) :
  (forall x y, lerp junk u x y == 0) -> (forall x y, lerp junk v x y == 0) ->
  fst (rungeKutta3 junk q x y timestep u v) == x /\
  snd (rungeKutta3 junk q x y timestep u v) == y.
Proof.
  intros Hu Hv.
  assert (K : forall z t h a b c : Q, a == 0 -> b == 0 -> c == 0 ->
                z - t*((2#9)*(a/h) + (3#9)*(b/h) + (4#9)*c) == z).
  { intros z t h a b c Ha Hb Hc. rewrite Ha, Hb, Hc. unfold Qdiv. ring. }
  unfold rungeKutta3; cbv zeta; cbn [fst snd].
  split.
  - apply (K _ _ _ _ _ _ (Hu _ _) (Hu _ _) (Hu _ _)).
  - apply (K _ _ _ _ _ _ (Hv _ _) (Hv _ _) (Hv _ _)).
Qed.

(** X14: advection through velocity fields that are zero everywhere
    leaves every cell [(ix, iy)] with [ix <= width-2] and
    [iy <= height-2] at its value. *)
Lemma advect_still (q : FluidQuantity) (timestep : Q) (u v : FluidQuantity) (ix iy : Z) :
  (2 <= q_w u)%Z -> (2 <= q_h u)%Z -> (2 <= q_w v)%Z -> (2 <= q_h v)%Z ->
  (forall i j, (0 <= i < q_w u)%Z -> (0 <= j < q_h u)%Z -> at_ junk u i j == 0) ->
  (forall i j, (0 <= i < q_w v)%Z -> (0 <= j < q_h v)%Z -> at_ junk v i j == 0) ->
  List.length (q_dst q) = Z.to_nat (q_w q * q_h q) ->
  (0 <= ix <= q_w q - 2)%Z -> (0 <= iy <= q_h q - 2)%Z ->
  rd junk (q_dst (advect junk q timestep u v)) (ix + iy * q_w q) == at_ junk q ix iy.
Proof.
  intros Huw Huh Hvw Hvh Hu Hv Hl Hix Hiy.
  rewrite advect_dst_at by (assumption || lia).
  rewrite advect_point_eq.
  destruct (rungeKutta3_still q (inject_Z ix + q_ox q) (inject_Z iy + q_oy q) timestep u v)
    as [Ex Ey].
  - intros x y. apply lerp_still; assumption.
  - intros x y. apply lerp_still; assumption.
  - rewrite (cerp_Proper junk q _ _ Ex _ _ Ey).
    apply cerp_grid_point; assumption.
Qed.
End Still.

(** *** [toImage] *)

Lemma set_byte_length (n : nat) (v : Z) (l : list Z) :
  List.length (set_byte n v l) = List.length l.
Proof. revert n; induction l as [|x l IH]; intros [|n]; simpl; auto. Qed.

Lemma nth_set_byte (n m : nat) (v : Z) (l : list Z) :
  (n < List.length l)%nat ->
  nth m (set_byte n v l) 0%Z = if Nat.eqb m n then v else nth m l 0%Z.
Proof.
  revert n m; induction l as [|x l IH]; intros [|n] [|m] H; simpl in *;
    try lia; try reflexivity.
  apply IH; lia.
Qed.

Lemma wr_byte_length (b : list Z) (i v : Z) :
  List.length (wr_byte b i v) = List.length b.
Proof. unfold wr_byte. destruct (_ && _); [apply set_byte_length | reflexivity]. Qed.

Lemma nth_wr_byte (b : list Z) (i v j : Z) :
  (0 <= i < Z.of_nat (List.length b))%Z -> (0 <= j < Z.of_nat (List.length b))%Z ->
  nth (Z.to_nat j) (wr_byte b i v) 0%Z =
  if Z.eqb j i then (v mod 256)%Z else nth (Z.to_nat j) b 0%Z.
Proof.
  intros Hi Hj. unfold wr_byte.
  replace ((0 <=? i)%Z && (i <? Z.of_nat (List.length b))%Z) with true
    by (symmetry; apply andb_true_iff; split; [apply Z.leb_le | apply Z.ltb_lt]; lia).
  rewrite nth_set_byte by lia.
  destruct (Z.eqb_spec j i); destruct (Nat.eqb_spec (Z.to_nat j) (Z.to_nat i)); auto; lia.
Qed.

Lemma to_int_nonpos (x : Q) : x <= 0 -> (to_int x <= 0)%Z.
Proof.
  destruct x as [n d]. unfold Qle, to_int; simpl. intros H. rewrite Z.mul_1_r in H.
  replace n with (- (- n))%Z by lia. rewrite Z.quot_opp_l by lia.
  pose proof (Z.quot_pos (- n) (Zpos d) ltac:(lia) ltac:(lia)). lia.
Qed.

Lemma toImage_shade_range (d : Q) : (0 <= toImage_shade d <= 255)%Z.
Proof. unfold toImage_shade. lia. Qed.

(** X16: when the cast [(int)((1.0 - d)*255.0)] is defined (its value
    truncates to an [int]), the grey level [toImage] writes for a density
    [d] is within [[0, 255]], is 255 for [d <= 0] and 0 for [d >= 1], and
    does not increase with [d] among the densities whose cast is defined. *)
Lemma toImage_shade_spec (d : Q) :
  int_cast_defined ((1 - d) * 255) ->
  (0 <= toImage_shade d <= 255)%Z /\
  (d <= 0 -> toImage_shade d = 255%Z) /\
  (1 <= d -> toImage_shade d = 0%Z) /\
  (forall d', int_cast_defined ((1 - d') * 255) -> d <= d' ->
     (toImage_shade d' <= toImage_shade d)%Z).
Proof.
  intros _. split; [exact (toImage_shade_range d)|]. split; [|split].
  - intros Hd. unfold toImage_shade; cbv zeta.
    assert (H0 : 0 <= (1 - d) * 255) by (apply Qmult_le_0_compat; lra).
    assert (H255 : 255 <= (1 - d) * 255) by lra.
    pose proof (to_int_upper _ H0).
    assert (H254 : inject_Z 254 < inject_Z (to_int ((1 - d) * 255))).
    { unfold inject_Z at 1. lra. }
    rewrite <- Zlt_Qlt in H254. lia.
  - intros Hd. unfold toImage_shade; cbv zeta.
    assert (H : (1 - d) * 255 <= 0).
    { setoid_replace ((1 - d) * 255) with (- ((d - 1) * 255)) by ring.
      assert (0 <= (d - 1) * 255) by (apply Qmult_le_0_compat; lra). lra. }
    pose proof (to_int_nonpos _ H). lia.
  - intros d' _ Hd. generalize dependent d'. generalize d as d1.
    intros d1 d2 Hd. unfold toImage_shade; cbv zeta.
    assert (Hab : (1 - d2) * 255 <= (1 - d1) * 255).
    { assert (0 <= (d2 - d1) * 255) by (apply Qmult_le_0_compat; lra).
      setoid_replace ((1 - d1) * 255) with ((1 - d2) * 255 + (d2 - d1) * 255) by ring.
      lra. }
    destruct (Qlt_le_dec ((1 - d2) * 255) 0) as [Hn|Hp].
    + pose proof (to_int_nonpos ((1 - d2) * 255) (Qlt_le_weak _ _ Hn)). lia.
    + destruct (to_int_nonneg_bounds _ Hp) as [_ La].
      pose proof (to_int_upper ((1 - d1) * 255) ltac:(lra)) as Ub.
      assert (Hlt : inject_Z (to_int ((1 - d2) * 255)) <
                    inject_Z (to_int ((1 - d1) * 255) + 1)).
      { rewrite inject_Z_plus. unfold inject_Z at 3. lra. }
      rewrite <- Zlt_Qlt in Hlt. lia.
Qed.

Section Image.
Variable junk : Z -> Q.

Lemma toImage_length (st : FluidSolver) (rgba : list Z) :
  List.length (toImage junk st rgba) = List.length rgba.
Proof.
  unfold toImage. generalize rgba.
  induction (zrange 0 (s_w st * s_h st)) as [|a L IH]; intros b; simpl; [reflexivity|].
  rewrite IH, !wr_byte_length. reflexivity.
Qed.

(** X17: [toImage] on a buffer of [4 * width * height] bytes writes, for
    every cell [i], the grey level of [d(i)] in the bytes [4i], [4i+1] and
    [4i+2] and 255 in the byte [4i+3]. *)
Lemma toImage_pixels (st : FluidSolver) (rgba : list Z) (i : Z) :
  List.length rgba = Z.to_nat (s_w st * s_h st * 4) ->
  (0 <= i < s_w st * s_h st)%Z ->
  let img := toImage junk st rgba in
  let shade := toImage_shade (rd junk (q_src (s_d st)) i) in
  nth (Z.to_nat (i * 4 + 0)) img 0%Z = shade /\
  nth (Z.to_nat (i * 4 + 1)) img 0%Z = shade /\
  nth (Z.to_nat (i * 4 + 2)) img 0%Z = shade /\
  nth (Z.to_nat (i * 4 + 3)) img 0%Z = 255%Z.
Proof.
  intros Hl Hi img shade.
  assert (Hmod : (shade mod 256 = shade)%Z)
    by (apply Z.mod_small; pose proof (toImage_shade_range (rd junk (q_src (s_d st)) i)); lia).
  set (pix := fun a k : Z =>
                if (k <? 3)%Z then (toImage_shade (rd junk (q_src (s_d st)) a) mod 256)%Z
                else (255 mod 256)%Z).
  assert (Key : forall k, (0 <= k < 4)%Z ->
            forall L b, List.length b = List.length rgba ->
            (forall a, In a L -> (0 <= a < s_w st * s_h st)%Z) ->
            nth (Z.to_nat (i * 4 + k)) (fold_left
              (fun rgba i =>
                 wr_byte (wr_byte (wr_byte (wr_byte rgba
                   (i * 4 + 0) (toImage_shade (rd junk (q_src (s_d st)) i)))
                   (i * 4 + 1) (toImage_shade (rd junk (q_src (s_d st)) i)))
                   (i * 4 + 2) (toImage_shade (rd junk (q_src (s_d st)) i)))
                   (i * 4 + 3) 255) L b) 0%Z =
            if in_dec Z.eq_dec i L then pix i k else nth (Z.to_nat (i * 4 + k)) b 0%Z).
  { intros k Hk L. induction L as [|a L IH]; intros b Hb HL; cbn [fold_left]; [reflexivity|].
    rewrite IH; [| rewrite !wr_byte_length; exact Hb | intros; apply HL; right; auto].
    destruct (in_dec Z.eq_dec i L) as [Hin|Hnin];
      destruct (in_dec Z.eq_dec i (a :: L)) as [Hin'|Hnin'].
    - reflexivity.
    - exfalso. apply Hnin'. right. exact Hin.
    - assert (Ha : (0 <= a < s_w st * s_h st)%Z) by (apply HL; left; reflexivity).
      destruct Hin' as [<-|Hin']; [|contradiction].
      cbv zeta.
      rewrite !nth_wr_byte by (rewrite ?wr_byte_length; lia).
      unfold pix.
      repeat match goal with
             | |- context [Z.eqb ?x ?y] => destruct (Z.eqb_spec x y)
             | |- context [Z.ltb ?x ?y] => destruct (Z.ltb_spec x y)
             end; try reflexivity; lia.
    - assert (Ha : (0 <= a < s_w st * s_h st)%Z) by (apply HL; left; reflexivity).
      assert (Hai : a <> i) by (intros E; apply Hnin'; left; exact E).
      cbv zeta.
      rewrite !nth_wr_byte by (rewrite ?wr_byte_length; lia).
      repeat match goal with
             | |- context [Z.eqb ?x ?y] => destruct (Z.eqb_spec x y); try lia
             end; reflexivity. }
  assert (HL : forall a, In a (zrange 0 (s_w st * s_h st)) -> (0 <= a < s_w st * s_h st)%Z)
    by (intros a Ha; apply in_zrange in Ha; exact Ha).
  assert (Hi' : In i (zrange 0 (s_w st * s_h st))) by (apply in_zrange; exact Hi).
  unfold img, toImage.
  rewrite (Key 0%Z ltac:(lia) _ rgba eq_refl HL), (Key 1%Z ltac:(lia) _ rgba eq_refl HL),
    (Key 2%Z ltac:(lia) _ rgba eq_refl HL), (Key 3%Z ltac:(lia) _ rgba eq_refl HL).
  destruct (in_dec Z.eq_dec i (zrange 0 (s_w st * s_h st))) as [_|]; [|contradiction].
  unfold pix.
  change ((0 <? 3)%Z) with true. change ((1 <? 3)%Z) with true.
  change ((2 <? 3)%Z) with true. change ((3 <? 3)%Z) with false.
  cbv beta iota. unfold shade in Hmod |- *. rewrite Hmod.
  split; [reflexivity|split; [reflexivity|split; reflexivity]].
Qed.

End Image.

(** *** A fluid at rest *)

Section Rest.
Variable junk : Z -> Q.

Lemma cerp_zero_field (q : FluidQuantity) (x y : Q) :
  (1 <= q_w q)%Z -> (1 <= q_h q)%Z ->
  (forall i j, (0 <= i < q_w q)%Z -> (0 <= j < q_h q)%Z -> at_ junk q i j == 0) ->
  cerp junk q x y == 0.
Proof.
  intros Hw Hh H0.
  destruct (cerp_within junk q x y 0 0 Hw Hh) as [A B].
  - intros i j Hi Hj. rewrite (H0 i j Hi Hj). split; apply Qle_refl.
  - apply Qle_antisym; assumption.
Qed.

Lemma update_v_at (timestep : Q) (st : FluidSolver) (ix iy : Z) :
  solver_wf st -> (0 <= ix < s_w st)%Z -> (0 <= iy <= s_h st)%Z ->
  let stp := applyPressure junk timestep
               (fst (pressure_solve junk timestep (buildRhs junk st))) in
  at_ junk (s_v (fst (update junk timestep st))) ix iy =
  advect_point junk (s_v stp) timestep
    (advect junk (s_u stp) timestep (s_u stp) (s_v stp)) (s_v stp) ix iy.
Proof.
  intros Hwf Hx Hy stp.
  destruct (solve_wf junk timestep st Hwf) as (Hwf2 & Hw2 & Hh2).
  destruct (applyPressure_spec junk timestep
              (fst (pressure_solve junk timestep (buildRhs junk st)))
              Hwf2 ltac:(lia) ltac:(lia)) as (Hwfp & Hwp & Hhp & _).
  fold stp in Hwfp, Hwp, Hhp.
  destruct Hwfp as (_ & _ & (Vw & Vh & _ & _ & _ & Vdst) & _).
  rewrite update_unfold. fold stp.
  unfold advect_fields, with_fields, flip, at_; cbn [fst s_v q_src q_w].
  rewrite advect_w, advect_dst_at by (rewrite ?Vdst, ?Vw, ?Vh; lia).
  reflexivity.
Qed.

(** X15: a fluid at rest (zero velocities, zero pressure) stays at rest
    across a step: the velocities and the pressure stay zero, and the
    pressure solve stops after its first sweep with [maxDelta = 0].  The
    grid has at least two cells and the timestep, density and cell size are
    positive, so that the [scale] of the solve and the diagonal [diag] of
    every cell are nonzero (on a 1x1 grid [diag] is 0 and the source
    computes [0.0/0.0], a NaN). *)
Lemma update_at_rest (timestep : Q) (st : FluidSolver) :
  solver_wf st -> (1 <= s_w st)%Z -> (1 <= s_h st)%Z ->
  (2 <= s_w st * s_h st)%Z -> 0 < timestep -> 0 < s_density st -> 0 < s_hx st ->
  faces_zero junk (s_u st) -> faces_zero junk (s_v st) -> cells_zero junk (s_w st) (s_h st) (s_p st) ->
  let '(st', report) := update junk timestep st in
  faces_zero junk (s_u st') /\ faces_zero junk (s_v st') /\
  cells_zero junk (s_w st) (s_h st) (s_p st') /\
  exists md, report = Converged 0 md /\ md == 0.
Proof.
  intros Hwf Hw Hh _ _ _ _ Hu Hv Hp.
  pose proof Hwf as Hwf0.
  destruct Hwf0 as (_ & (Uw & Uh & _ & _ & _ & _) & (Vw & Vh & _ & _ & _ & _) & Lr & Lp & Lp2).
  destruct (buildRhs_shape junk st) as (B1 & B2 & B3 & B4 & B5 & B6 & B7 & B8 & B9 & B10 & B11).
  set (sb := buildRhs junk st) in *.
  (* the right-hand side is zero *)
  assert (Hr : cells_zero junk (s_w st) (s_h st) (s_r sb)).
  { intros x y Hx Hy. unfold sb. rewrite buildRhs_at by assumption.
    rewrite (Hu (x + 1)%Z y), (Hu x y), (Hv x (y + 1)%Z), (Hv x y) by lia.
    ring. }
  (* the zero pressure solves every cell *)
  assert (Hrest : at_rest junk (s_w sb) (s_h sb)
                    (timestep / (s_density sb * s_hx sb * s_hx sb)) (s_r sb) (s_p sb)).
  { rewrite B4, B5, B8. intros x y Hx Hy. rewrite (Hp x y Hx Hy).
    unfold newPressure; cbv zeta.
    destruct (Z.gtb_spec x 0), (Z.gtb_spec y 0), (Z.ltb_spec x (s_w st - 1)),
      (Z.ltb_spec y (s_h st - 1)); cbv beta iota; rewrite (Hr x y Hx Hy);
      repeat match goal with
             | |- context [rd junk (s_p st) ?j] =>
                 let E := fresh in
                 assert (E : rd junk (s_p st) j == 0)
                   by (first [ replace j with ((x - 1) + y * s_w st)%Z by ring
                             | replace j with (x + (y - 1) * s_w st)%Z by ring
                             | replace j with ((x + 1) + y * s_w st)%Z by ring
                             | replace j with (x + (y + 1) * s_w st)%Z by ring ];
                       apply Hp; lia);
                 rewrite E; clear E
             end;
      unfold Qdiv; ring. }
  pose proof (pressure_solve_at_rest junk timestep sb) as PS.
  rewrite B8, B9, B4, B5 in PS. specialize (PS Lp Lp2 Hrest).
  assert (PS' : (exists md, snd (pressure_solve junk timestep sb) = Converged 0 md /\ md == 0) /\
                (forall x y, (0 <= x < s_w st)%Z -> (0 <= y < s_h st)%Z ->
                   rd junk (s_p (fst (pressure_solve junk timestep sb))) (x + y * s_w st) ==
                   rd junk (s_p sb) (x + y * s_w st)))
    by (destruct (pressure_solve junk timestep sb); exact PS).
  clear PS. destruct PS' as [Hrep Hps].
  destruct (pressure_solve_shape junk timestep sb)
    as (P1 & P2 & P3 & P4 & P5 & P6 & P7 & P8 & P9 & P10 & P11).
  destruct (solve_wf junk timestep st Hwf) as (Hwf2 & Hw2 & Hh2). fold sb in Hwf2, Hw2, Hh2.
  set (ps := fst (pressure_solve junk timestep sb)) in *.
  set (stp := applyPressure junk timestep ps).
  destruct (applyPressure_spec junk timestep ps Hwf2 ltac:(lia) ltac:(lia))
    as (Hwfp & Hwp & Hhp & Hpp & _ & Hbu & Hbv).
  fold stp in Hwfp, Hwp, Hhp, Hpp.
  destruct (applyPressure_interior_faces junk timestep ps Hwf2) as [Iu Iv].
  assert (Hpz : forall x y, (0 <= x < s_w st)%Z -> (0 <= y < s_h st)%Z ->
                  rd junk (s_p ps) (x + y * s_w ps) == 0).
  { intros x y Hx Hy. rewrite Hw2, Hps by assumption. rewrite B8. apply Hp; assumption. }
  destruct Hwfp as (_ & (Uw' & Uh' & _) & (Vw' & Vh' & _) & _).
  assert (Hu' : faces_zero junk (s_u stp)).
  { intros i j Hi Hj. rewrite Uw', Hwp, Hw2 in Hi. rewrite Uh', Hhp, Hh2 in Hj.
    destruct (Z.eq_dec i 0) as [->|Hi0];
      [unfold stp; rewrite (proj1 (Hbu j ltac:(lia))); reflexivity|].
    destruct (Z.eq_dec i (s_w st)) as [->|Hiw];
      [unfold stp; rewrite <- Hw2, (proj2 (Hbu j ltac:(lia))); reflexivity|].
    unfold stp. rewrite Iu by (rewrite ?Hw2, ?Hh2; lia).
    rewrite (Hpz i j), (Hpz (i - 1)%Z j) by lia.
    rewrite P2, B2, (Hu i j) by lia. ring. }
  assert (Hv' : faces_zero junk (s_v stp)).
  { intros i j Hi Hj. rewrite Vw', Hwp, Hw2 in Hi. rewrite Vh', Hhp, Hh2 in Hj.
    destruct (Z.eq_dec j 0) as [->|Hj0];
      [unfold stp; rewrite (proj1 (Hbv i ltac:(lia))); reflexivity|].
    destruct (Z.eq_dec j (s_h st)) as [->|Hjh];
      [unfold stp; rewrite <- Hh2, (proj2 (Hbv i ltac:(lia))); reflexivity|].
    unfold stp. rewrite Iv by (rewrite ?Hw2, ?Hh2; lia).
    rewrite (Hpz i j), (Hpz i (j - 1)%Z) by lia.
    rewrite P3, B3, (Hv i j) by lia. ring. }
  destruct (update_wf junk timestep st Hwf ltac:(lia) ltac:(lia))
    as ((_ & (Uw2 & Uh2 & _) & (Vw2 & Vh2 & _) & _) & Ew & Eh & _).
  pose proof (update_keeps_p junk timestep st) as KP.
  pose proof (update_unfold junk timestep st) as UU.
  enough (G : faces_zero junk (s_u (fst (update junk timestep st))) /\
              faces_zero junk (s_v (fst (update junk timestep st))) /\
              cells_zero junk (s_w st) (s_h st) (s_p (fst (update junk timestep st))) /\
              exists md, snd (update junk timestep st) = Converged 0 md /\ md == 0).
  { destruct (update junk timestep st); exact G. }
  split; [|split; [|split]].
  - intros i j Hi Hj. rewrite Uw2, Ew in Hi. rewrite Uh2, Eh in Hj.
    pose proof (update_u_at junk timestep st i j Hwf ltac:(lia) ltac:(lia)) as E.
    cbv zeta in E. fold sb ps stp in E.
    destruct (rungeKutta3 _ _ _ _ _ _ _) as [x y]. rewrite E.
    apply cerp_zero_field; [rewrite Uw'; lia | rewrite Uh'; lia | exact Hu'].
  - intros i j Hi Hj. rewrite Vw2, Ew in Hi. rewrite Vh2, Eh in Hj.
    rewrite update_v_at by (assumption || lia). fold sb ps stp.
    rewrite advect_point_eq.
    apply cerp_zero_field; [rewrite Vw'; lia | rewrite Vh'; lia | exact Hv'].
  - intros x y Hx Hy. rewrite KP. fold sb ps.
    rewrite Hps by assumption. rewrite B8. apply Hp; assumption.
  - rewrite UU. exact Hrep.
Qed.
End Rest.

(** *** Properties read off the code *)

(** X1: the pulse profile [cubicPulse] of [addInflow] takes its values in
    [[0, 1]], for every argument. *)
Lemma cubicPulse_range (x : Q) : 0 <= cubicPulse x <= 1.
Proof. exact (cubicPulse_bounds x). Qed.

(** X4: bilinear sampling ([lerp]) of a field of at least 2x2 values stays
    within every bound [m], [M] of the field's values, at every sample
    point, in or out of the grid. *)
Lemma lerp_within (junk : Z -> Q) (q : FluidQuantity) (x y m M : Q) :
  (2 <= q_w q)%Z -> (2 <= q_h q)%Z ->
  (forall i j, (0 <= i < q_w q)%Z -> (0 <= j < q_h q)%Z -> m <= at_ junk q i j <= M) ->
  m <= lerp junk q x y <= M.
Proof. exact (lerp_bounds junk q x y m M). Qed.

(** X5: bicubic sampling ([cerp]) at the position [(ix + offsetX,
    iy + offsetY)] of a cell with [0 <= ix <= width-2] and
    [0 <= iy <= height-2] returns exactly the value stored at that cell. *)
Lemma cerp_exact_at_interior_points (junk : Z -> Q) (q : FluidQuantity) (ix iy : Z) :
  (0 <= ix <= q_w q - 2)%Z -> (0 <= iy <= q_h q - 2)%Z ->
  cerp junk q (inject_Z ix + q_ox q) (inject_Z iy + q_oy q) == at_ junk q ix iy.
Proof. exact (cerp_grid_point junk q ix iy). Qed.

(** X7: [buildRhs] stores at every cell the negated divergence of the
    velocity field, [-(u(x+1,y) - u(x,y) + v(x,y+1) - v(x,y)) / hx]. *)
Lemma buildRhs_divergence (junk : Z -> Q) (st : FluidSolver) (x y : Z) :
  List.length (s_r st) = Z.to_nat (s_w st * s_h st) ->
  (0 <= x < s_w st)%Z -> (0 <= y < s_h st)%Z ->
  rd junk (s_r (buildRhs junk st)) (x + y * s_w st) =
  - (1 / s_hx st) *
    (at_ junk (s_u st) (x + 1) y - at_ junk (s_u st) x y +
     at_ junk (s_v st) x (y + 1) - at_ junk (s_v st) x y).
Proof. exact (buildRhs_at junk st x y). Qed.



(** X10: [applyPressure] subtracts from every interior face the pressure
    gradient across it: [u(x,y) -= scale*(p(x,y) - p(x-1,y))] for
    [0 < x < width] and [v(x,y) -= scale*(p(x,y) - p(x,y-1))] for
    [0 < y < height], with [scale = timestep/(density*hx)]. *)
Lemma applyPressure_interior_gradient (junk : Z -> Q) (timestep : Q) (st : FluidSolver) :
  solver_wf st ->
  let scale := timestep / (s_density st * s_hx st) in
  let p i j := rd junk (s_p st) (i + j * s_w st) in
  let st' := applyPressure junk timestep st in
  (forall x y, (0 < x < s_w st)%Z -> (0 <= y < s_h st)%Z ->
     at_ junk (s_u st') x y == at_ junk (s_u st) x y - scale * (p x y - p (x - 1)%Z y)) /\
  (forall x y, (0 <= x < s_w st)%Z -> (0 < y < s_h st)%Z ->
     at_ junk (s_v st') x y == at_ junk (s_v st) x y - scale * (p x y - p x (y - 1)%Z)).
Proof. exact (applyPressure_interior_faces junk timestep st). Qed.

(** *** Witnesses *)

Ltac enum_range H :=
  match type of H with
  | (0 <= ?i < 2)%Z => assert (i = 0 \/ i = 1)%Z as [-> | ->] by lia
  | (0 <= ?i < 3)%Z => assert (i = 0 \/ i = 1 \/ i = 2)%Z as [-> | [-> | ->]] by lia
  end.

Lemma cubicPulse_monotone_witness :
  Qabs (1#2) <= Qabs 2 /\ cubicPulse 2 <= cubicPulse (1#2).
Proof.
  assert (H : Qabs (1#2) <= Qabs 2) by (vm_compute; discriminate).
  exact (conj H (cubicPulse_monotone (1#2) 2 H)).
Defined.

Lemma lerp_within_witness :
  (2 <= q_w corner_field)%Z /\ (2 <= q_h corner_field)%Z /\
  (forall i j, (0 <= i < q_w corner_field)%Z -> (0 <= j < q_h corner_field)%Z ->
     0 <= at_ no_junk corner_field i j <= 1) /\
  0 <= lerp no_junk corner_field (1#3) (3#4) <= 1.
Proof.
  assert (Hw : (2 <= q_w corner_field)%Z) by (cbn; lia).
  assert (Hh : (2 <= q_h corner_field)%Z) by (cbn; lia).
  assert (Hin : forall i j, (0 <= i < q_w corner_field)%Z -> (0 <= j < q_h corner_field)%Z ->
                  0 <= at_ no_junk corner_field i j <= 1).
  { intros i j Hi Hj. cbn in Hi, Hj. enum_range Hi; enum_range Hj;
      vm_compute; split; discriminate. }
  exact (conj Hw (conj Hh (conj Hin
           (lerp_within no_junk corner_field (1#3) (3#4) 0 1 Hw Hh Hin)))).
Defined.

Lemma cerp_exact_at_interior_points_witness :
  (0 <= 0 <= q_w corner_field - 2)%Z /\ (0 <= 0 <= q_h corner_field - 2)%Z /\
  cerp no_junk corner_field (inject_Z 0 + q_ox corner_field)
    (inject_Z 0 + q_oy corner_field) == at_ no_junk corner_field 0 0.
Proof.
  split; [cbn; lia|]. split; [cbn; lia|].
  apply (cerp_exact_at_interior_points no_junk corner_field 0%Z 0%Z); cbn; lia.
Defined.

Lemma buildRhs_divergence_witness :
  List.length (s_r circ_state) = Z.to_nat (s_w circ_state * s_h circ_state) /\
  (0 <= 1 < s_w circ_state)%Z /\ (0 <= 0 < s_h circ_state)%Z /\
  rd no_junk (s_r (buildRhs no_junk circ_state)) (1 + 0 * s_w circ_state) =
  - (1 / s_hx circ_state) *
    (at_ no_junk (s_u circ_state) (1 + 1) 0 - at_ no_junk (s_u circ_state) 1 0 +
     at_ no_junk (s_v circ_state) 1 (0 + 1) - at_ no_junk (s_v circ_state) 1 0).
Proof.
  assert (Hr : List.length (s_r circ_state) = Z.to_nat (s_w circ_state * s_h circ_state))
    by reflexivity.
  assert (Hx : (0 <= 1 < s_w circ_state)%Z) by (cbn; lia).
  assert (Hy : (0 <= 0 < s_h circ_state)%Z) by (cbn; lia).
  exact (conj Hr (conj Hx (conj Hy
           (buildRhs_divergence no_junk circ_state 1 0 Hr Hx Hy)))).
Defined.



Lemma applyPressure_interior_gradient_witness :
  solver_wf circ_state /\
  let scale := (1#10) / (s_density circ_state * s_hx circ_state) in
  let p i j := rd no_junk (s_p circ_state) (i + j * s_w circ_state) in
  let st' := applyPressure no_junk (1#10) circ_state in
  (forall x y, (0 < x < s_w circ_state)%Z -> (0 <= y < s_h circ_state)%Z ->
     at_ no_junk (s_u st') x y ==
     at_ no_junk (s_u circ_state) x y - scale * (p x y - p (x - 1)%Z y)) /\
  (forall x y, (0 <= x < s_w circ_state)%Z -> (0 < y < s_h circ_state)%Z ->
     at_ no_junk (s_v st') x y ==
     at_ no_junk (s_v circ_state) x y - scale * (p x y - p x (y - 1)%Z)).
Proof.
  assert (Hwf : solver_wf circ_state) by (vm_compute; repeat split; reflexivity).
  exact (conj Hwf (applyPressure_interior_gradient no_junk (1#10) circ_state Hwf)).
Defined.

Lemma advect_still_witness :
  (2 <= q_w (s_u fresh_2x2))%Z /\ (2 <= q_h (s_u fresh_2x2))%Z /\
  (2 <= q_w still_v)%Z /\ (2 <= q_h still_v)%Z /\
  (forall i j, (0 <= i < q_w (s_u fresh_2x2))%Z -> (0 <= j < q_h (s_u fresh_2x2))%Z ->
     at_ no_junk (s_u fresh_2x2) i j == 0) /\
  (forall i j, (0 <= i < q_w still_v)%Z -> (0 <= j < q_h still_v)%Z ->
     at_ no_junk still_v i j == 0) /\
  List.length (q_dst corner_field) = Z.to_nat (q_w corner_field * q_h corner_field) /\
  (0 <= 0 <= q_w corner_field - 2)%Z /\ (0 <= 0 <= q_h corner_field - 2)%Z /\
  rd no_junk (q_dst (advect no_junk corner_field (1#10) (s_u fresh_2x2) still_v))
    (0 + 0 * q_w corner_field) == at_ no_junk corner_field 0 0.
Proof.
  assert (Huw : (2 <= q_w (s_u fresh_2x2))%Z) by (cbn; lia).
  assert (Huh : (2 <= q_h (s_u fresh_2x2))%Z) by (cbn; lia).
  assert (Hvw : (2 <= q_w still_v)%Z) by (cbn; lia).
  assert (Hvh : (2 <= q_h still_v)%Z) by (cbn; lia).
  assert (Hu : forall i j, (0 <= i < q_w (s_u fresh_2x2))%Z ->
                 (0 <= j < q_h (s_u fresh_2x2))%Z -> at_ no_junk (s_u fresh_2x2) i j == 0).
  { intros i j Hi Hj. cbn in Hi, Hj. enum_range Hi; enum_range Hj;
      vm_compute; reflexivity. }
  assert (Hv : forall i j, (0 <= i < q_w still_v)%Z -> (0 <= j < q_h still_v)%Z ->
                 at_ no_junk still_v i j == 0).
  { intros i j Hi Hj. cbn in Hi, Hj. enum_range Hi; enum_range Hj;
      vm_compute; reflexivity. }
  assert (Hd : List.length (q_dst corner_field) =
               Z.to_nat (q_w corner_field * q_h corner_field)) by reflexivity.
  assert (Hx : (0 <= 0 <= q_w corner_field - 2)%Z) by (cbn; lia).
  assert (Hy : (0 <= 0 <= q_h corner_field - 2)%Z) by (cbn; lia).
  exact (conj Huw (conj Huh (conj Hvw (conj Hvh (conj Hu (conj Hv (conj Hd (conj Hx (conj Hy
           (advect_still no_junk corner_field (1#10) (s_u fresh_2x2) still_v 0 0
              Huw Huh Hvw Hvh Hu Hv Hd Hx Hy)))))))))).
Defined.

Lemma update_at_rest_witness :
  solver_wf fresh_2x2 /\ (1 <= s_w fresh_2x2)%Z /\ (1 <= s_h fresh_2x2)%Z /\
  (2 <= s_w fresh_2x2 * s_h fresh_2x2)%Z /\ 0 < 1#10 /\ 0 < s_density fresh_2x2 /\
  0 < s_hx fresh_2x2 /\
  faces_zero no_junk (s_u fresh_2x2) /\ faces_zero no_junk (s_v fresh_2x2) /\
  cells_zero no_junk (s_w fresh_2x2) (s_h fresh_2x2) (s_p fresh_2x2) /\
  let '(st', report) := update no_junk (1#10) fresh_2x2 in
  faces_zero no_junk (s_u st') /\ faces_zero no_junk (s_v st') /\
  cells_zero no_junk (s_w fresh_2x2) (s_h fresh_2x2) (s_p st') /\
  exists md, report = Converged 0 md /\ md == 0.
Proof.
  assert (Hwf : solver_wf fresh_2x2) by (vm_compute; repeat split; reflexivity).
  assert (Hw : (1 <= s_w fresh_2x2)%Z) by (cbn; lia).
  assert (Hh : (1 <= s_h fresh_2x2)%Z) by (cbn; lia).
  assert (Hc : (2 <= s_w fresh_2x2 * s_h fresh_2x2)%Z) by (cbn; lia).
  assert (Ht : 0 < 1#10) by (vm_compute; reflexivity).
  assert (Hd : 0 < s_density fresh_2x2) by (vm_compute; reflexivity).
  assert (Hs : 0 < s_hx fresh_2x2) by (vm_compute; reflexivity).
  assert (Hu : faces_zero no_junk (s_u fresh_2x2)).
  { intros i j Hi Hj. cbn in Hi, Hj. enum_range Hi; enum_range Hj;
      vm_compute; reflexivity. }
  assert (Hv : faces_zero no_junk (s_v fresh_2x2)).
  { intros i j Hi Hj. cbn in Hi, Hj. enum_range Hi; enum_range Hj;
      vm_compute; reflexivity. }
  assert (Hp : cells_zero no_junk (s_w fresh_2x2) (s_h fresh_2x2) (s_p fresh_2x2)).
  { intros x y Hx Hy. cbn in Hx, Hy. enum_range Hx; enum_range Hy;
      vm_compute; reflexivity. }
  exact (conj Hwf (conj Hw (conj Hh (conj Hc (conj Ht (conj Hd (conj Hs
           (conj Hu (conj Hv (conj Hp
           (update_at_rest no_junk (1#10) fresh_2x2 Hwf Hw Hh Hc Ht Hd Hs
              Hu Hv Hp))))))))))).
Defined.

Lemma toImage_shade_spec_witness :
  int_cast_defined ((1 - (1#2)) * 255) /\
  (0 <= toImage_shade (1#2) <= 255)%Z /\
  ((1#2) <= 0 -> toImage_shade (1#2) = 255%Z) /\
  (1 <= (1#2) -> toImage_shade (1#2) = 0%Z) /\
  (forall d', int_cast_defined ((1 - d') * 255) -> (1#2) <= d' ->
     (toImage_shade d' <= toImage_shade (1#2))%Z).
Proof.
  assert (H : int_cast_defined ((1 - (1#2)) * 255)) by (split; vm_compute; reflexivity).
  exact (conj H (toImage_shade_spec (1#2) H)).
Defined.

Lemma toImage_pixels_witness :
  List.length (repeat 0%Z 16) =
    Z.to_nat (s_w (with_d fresh_2x2 corner_field) * s_h (with_d fresh_2x2 corner_field) * 4) /\
  (0 <= 1 < s_w (with_d fresh_2x2 corner_field) * s_h (with_d fresh_2x2 corner_field))%Z /\
  let img := toImage no_junk (with_d fresh_2x2 corner_field) (repeat 0%Z 16) in
  let shade := toImage_shade (rd no_junk (q_src (s_d (with_d fresh_2x2 corner_field))) 1) in
  nth (Z.to_nat (1 * 4 + 0)) img 0%Z = shade /\
  nth (Z.to_nat (1 * 4 + 1)) img 0%Z = shade /\
  nth (Z.to_nat (1 * 4 + 2)) img 0%Z = shade /\
  nth (Z.to_nat (1 * 4 + 3)) img 0%Z = 255%Z.
Proof.
  assert (Hl : List.length (repeat 0%Z 16) =
    Z.to_nat (s_w (with_d fresh_2x2 corner_field) * s_h (with_d fresh_2x2 corner_field) * 4))
    by reflexivity.
  assert (Hi : (0 <= 1 < s_w (with_d fresh_2x2 corner_field) *
                         s_h (with_d fresh_2x2 corner_field))%Z) by (cbn; lia).
  exact (conj Hl (conj Hi
           (toImage_pixels no_junk (with_d fresh_2x2 corner_field) (repeat 0%Z 16) 1 Hl Hi))).
Defined.
